(** * Garbage Cleaner Pro: the cleanup engine, its scheduler and flags

    A shallow embedding of the rule-driven cleanup core of
    [garbage_cleaner_pro.py]: [PathRule], [AppConfig], [ScanResult],
    [CleanerEngine.enumerate_rule], [CleanerEngine.act_on_files] with
    [_recycle_or_quarantine_or_delete] and [cleanup_empty_dirs], the
    [SimpleScheduler] tick and add, and the stop/pause flags. *)

From stdpp Require Import base gmap sets list strings sorting pretty.
From Stdlib Require Import ZArith Ascii String.
Open Scope Z_scope.

(** ** Paths and Python exception outcomes *)

(** A [pathlib.Path], as the list of its components. *)
Abbreviation path := (list string).

(** The outcome of a filesystem read as seen by the engine: a value, a
    [PermissionError] or [FileNotFoundError] (which [enumerate_rule] catches
    per entry), or any other exception. *)
Inductive pyres (A : Type) :=
| POk (a : A)
| PSkipErr
| POtherErr.
Arguments POk {A} a.
Arguments PSkipErr {A}.
Arguments POtherErr {A}.

(** ** Rules and configuration *)

Inductive ActionType := Quarantine | Delete | Recycle.

#[global] Instance ActionType_eq_dec : EqDecision ActionType.
Proof. solve_decision. Defined.

Record PathRule := {
  name : string;
  rule_path : string;
  patterns : list string;
  min_age_days : Z;
  remove_empty_dirs : bool;
  action : ActionType;
  enabled : bool
}.

Record AppConfig := {
  dry_run : bool;
  quarantine_enabled : bool;
  follow_symlinks : bool;
  max_delete_per_rule : Z;
  max_total_delete : Z;
  log_age_off_days : Z;
  hard_recycle_only : bool
}.

Record ScanResult := {
  sr_rule : PathRule;
  files : list path;
  total_size : Z
}.

(** [ScanResult(rule=rule)]: no files, size 0. *)
Definition empty_result (r : PathRule) : ScanResult :=
  {| sr_rule := r; files := []; total_size := 0 |}.

(** ** The filesystem as [enumerate_rule] reads it

    [enumerate_rule] only reads: [PathRule.resolve_base] (expanduser,
    expandvars, resolve), [Path.exists], [Path.rglob] (the entries it yields
    before it is exhausted or raises, in traversal order), [Path.is_dir],
    [Path.is_symlink] and [Path.stat] (modification time and size, times in
    whole seconds). *)
Record FsView := {
  fs_resolve : string -> path;
  fs_exists : path -> bool;
  fs_rglob : path -> string -> list path;
  fs_is_dir : path -> pyres bool;
  fs_is_symlink : path -> pyres bool;
  fs_stat : path -> pyres (Z * Z)
}.

(** [CleanerEngine.older_than]: [st_mtime < cutoff], [False] when the stat
    raises [FileNotFoundError] or [PermissionError]. *)
Definition older_than (fs : FsView) (p : path) (cutoff : Z) : pyres bool :=
  match fs_stat fs p with
  | POk (mtime, _) => POk (mtime <? cutoff)
  | PSkipErr => POk false
  | POtherErr => POtherErr
  end.

(** The mutable locals of [enumerate_rule]: the number of stop-flag checks
    done so far, [seen], [res.files] and [res.total_size]. *)
Record ScanAcc := {
  acc_checks : nat;
  acc_seen : gset path;
  acc_files : list path;
  acc_size : Z
}.

Section Enumerate.
Variable fs : FsView.
Variable cfg : AppConfig.
(** [stop k]: the value of [self._stop.is_set()] at the [k]-th check; the
    flag may be set by another thread at any time. *)
Variable stop : nat -> bool.
Variable rule : PathRule.
Variable cutoff : Z.

(** Body of the inner [try] for one entry [p], once the stop check has
    passed: [Some acc'] to go on, [None] when the inner [try] raised an
    exception that is not [PermissionError]/[FileNotFoundError] (it reaches
    the outer [except Exception: continue]). The boolean tells whether
    the cap [len(res.files) >= max_delete_per_rule] was reached. *)
Definition scan_entry (p : path) (acc : ScanAcc) : option (ScanAcc * bool) :=
  let skip := Some (acc, false) in
  if bool_decide (p ∈ acc_seen acc) then skip else
  match fs_is_dir fs p with
  | POtherErr => None
  | PSkipErr | POk true => skip
  | POk false =>
    match (if follow_symlinks cfg then POk false else fs_is_symlink fs p) with
    | POtherErr => None
    | PSkipErr | POk true => skip
    | POk false =>
      match (if 0 <? min_age_days rule then older_than fs p cutoff
             else POk true) with
      | POtherErr => None
      | PSkipErr | POk false => skip
      | POk true =>
        let sz := match fs_stat fs p with POk (_, s) => s | _ => 0 end in
        let acc' := {| acc_checks := acc_checks acc;
                       acc_seen := {[ p ]} ∪ acc_seen acc;
                       acc_files := acc_files acc ++ [p];
                       acc_size := acc_size acc + sz |} in
        Some (acc', Z.of_nat (List.length (acc_files acc')) >=? max_delete_per_rule cfg)
      end
    end
  end.

(** [for p in base.rglob(pattern)]: [inl acc] when the loop over this
    pattern ends (exhausted, [break] at the cap, or an exception caught by
    the outer [except]), [inr acc] on [return res] at a stop signal. *)
Fixpoint scan_entries (ps : list path) (acc : ScanAcc) : ScanAcc + ScanAcc :=
  match ps with
  | [] => inl acc
  | p :: ps' =>
    if stop (acc_checks acc) then inr acc else
    (* self.wait_if_paused() *)
    let acc1 := {| acc_checks := S (acc_checks acc); acc_seen := acc_seen acc;
                   acc_files := acc_files acc; acc_size := acc_size acc |} in
    match scan_entry p acc1 with
    | None => inl acc1
    | Some (acc2, true) => inl acc2
    | Some (acc2, false) => scan_entries ps' acc2
    end
  end.

(** [for pattern in rule.patterns]. *)
Fixpoint scan_patterns (base : path) (pats : list string) (acc : ScanAcc) : ScanAcc :=
  match pats with
  | [] => acc
  | pat :: pats' =>
    match scan_entries (fs_rglob fs base pat) acc with
    | inr acc' => acc'
    | inl acc' => scan_patterns base pats' acc'
    end
  end.
End Enumerate.

Definition acc0 : ScanAcc :=
  {| acc_checks := 0; acc_seen := ∅; acc_files := []; acc_size := 0 |}.

(** [CleanerEngine.enumerate_rule]; [now] is [time.time()]. *)
Definition enumerate_rule (fs : FsView) (cfg : AppConfig) (stop : nat -> bool)
    (now : Z) (rule : PathRule) : ScanResult :=
  if negb (enabled rule) then empty_result rule else
  let base := fs_resolve fs (rule_path rule) in
  if negb (fs_exists fs base) then empty_result rule else
  let cutoff := now - min_age_days rule * 86400 in
  let acc := scan_patterns fs cfg stop rule cutoff base (patterns rule) acc0 in
  {| sr_rule := rule; files := acc_files acc; total_size := acc_size acc |}.

(** ** A small concrete filesystem

    [demo_fs rg mt]: every rule's base resolves to [/tmp/x], which exists;
    [rglob] yields [rg pattern]; every entry is a regular file of size 1,
    not a symlink, with modification time [mt p]. *)
Definition demo_base : path := ["tmp"; "x"].

Definition demo_fs (rg : string -> list path) (mt : path -> Z) : FsView :=
  {| fs_resolve := fun _ => demo_base;
     fs_exists := fun p => bool_decide (p = demo_base);
     fs_rglob := fun _ pat => rg pat;
     fs_is_dir := fun _ => POk false;
     fs_is_symlink := fun _ => POk false;
     fs_stat := fun p => POk (mt p, 1) |}.

Definition digits10 : list string :=
  ["0"; "1"; "2"; "3"; "4"; "5"; "6"; "7"; "8"; "9"].

(** Ten files [/tmp/x/f<i><ext>]. *)
Definition ten_files (ext : string) : list path :=
  map (fun d => demo_base ++ ["f" ++ d ++ ext]%string) digits10.

Definition cfg_cap (cap : Z) : AppConfig :=
  {| dry_run := false; quarantine_enabled := true; follow_symlinks := false;
     max_delete_per_rule := cap; max_total_delete := 200000;
     log_age_off_days := 30; hard_recycle_only := false |}.

Definition rule_pats (pats : list string) (age : Z) : PathRule :=
  {| name := "R"; rule_path := "/tmp/x"; patterns := pats; min_age_days := age;
     remove_empty_dirs := true; action := Delete; enabled := true |}.

Definition no_stop : nat -> bool := fun _ => false.

(** [*.a] and [*.b] each match ten files. *)
Definition rg_ab (pat : string) : list path :=
  if String.eqb pat "*.a" then ten_files ".a"
  else if String.eqb pat "*.b" then ten_files ".b" else [].

(** [fs] with every successful [stat] reporting the modification time
    [g p m] instead of [m]: a filesystem that differs only in mtimes. *)
Definition with_mtimes (g : path -> Z -> Z) (fs : FsView) : FsView :=
  {| fs_resolve := fs_resolve fs;
     fs_exists := fs_exists fs;
     fs_rglob := fs_rglob fs;
     fs_is_dir := fs_is_dir fs;
     fs_is_symlink := fs_is_symlink fs;
     fs_stat := fun p => match fs_stat fs p with
                         | POk (m, s) => POk (g p m, s)
                         | PSkipErr => PSkipErr
                         | POtherErr => POtherErr
                         end |}.

(** One file [/tmp/x/old.log] modified at time 1000. *)
Definition old_log : path := demo_base ++ ["old.log"].
Definition fs_old_log : FsView := demo_fs (fun _ => [old_log]) (fun _ => 1000).

(** ** The filesystem as [act_on_files] changes it

    Regular files (contents and mode bits), directories, the platform trash
    ([send2trash]) and the messages given to the [log] collaborator. *)
Record fnode := {
  f_bytes : list Z;
  f_mode : Z
}.

Record World := {
  w_files : gmap path fnode;
  w_dirs : gset path;
  w_trash : list (path * fnode);
  w_log : list string
}.

(** Python statements over the world: a state monad whose computations end
    in a value or a raised exception (its message); state changes made
    before a [raise] stay, as in Python. *)
Definition PyIO (A : Type) : Type := World -> (A + string) * World.

Definition io_ret {A} (a : A) : PyIO A := fun w => (inl a, w).
Definition io_bind {A B} (c : PyIO A) (k : A -> PyIO B) : PyIO B :=
  fun w => match c w with
           | (inl a, w') => k a w'
           | (inr e, w') => (inr e, w')
           end.
Definition io_raise {A} (e : string) : PyIO A := fun w => (inr e, w).
(** [try: c except Exception as e: h(e)]. *)
Definition io_try {A} (c : PyIO A) (h : string -> PyIO A) : PyIO A :=
  fun w => match c w with
           | (inl a, w') => (inl a, w')
           | (inr e, w') => h e w'
           end.

Notation "x <- c1 ;; c2" := (io_bind c1 (fun x => c2))
  (at level 100, c1 at next level, right associativity).
Notation "c1 ;; c2" := (io_bind c1 (fun _ : unit => c2))
  (at level 100, right associativity).

Definition set_files (m : gmap path fnode) (w : World) : World :=
  {| w_files := m; w_dirs := w_dirs w; w_trash := w_trash w; w_log := w_log w |}.
Definition set_dirs (d : gset path) (w : World) : World :=
  {| w_files := w_files w; w_dirs := d; w_trash := w_trash w; w_log := w_log w |}.

(** [log(msg)]. *)
Definition io_log (msg : string) : PyIO unit :=
  fun w => (inl tt, {| w_files := w_files w; w_dirs := w_dirs w;
                       w_trash := w_trash w; w_log := w_log w ++ [msg] |}).

(** *** Path helpers *)

(** [Some rest] when [pre ++ rest = p]. *)
Fixpoint strip_prefix (pre p : path) : option path :=
  match pre, p with
  | [], _ => Some p
  | a :: pre', b :: p' => if String.eqb a b then strip_prefix pre' p' else None
  | _ :: _, [] => None
  end.

(** [p.relative_to(base)]; [None] is the [ValueError]. *)
Definition relative_to (p base : path) : option path := strip_prefix base p.

(** [p.name] and [p.parent]. *)
Definition path_name (p : path) : string := default "" (last p).
Definition path_parent (p : path) : path := removelast p.

(** [name.rfind('.')], or [None] for [-1]. *)
Fixpoint rfind_dot (s : string) (i : nat) (found : option nat) : option nat :=
  match s with
  | EmptyString => found
  | String c s' => rfind_dot s' (S i) (if Ascii.eqb c "."%char then Some i else found)
  end.

(** [PurePath.suffix] of a name: from the last dot, unless the dot is the
    first or the last character. *)
Definition name_suffix (nm : string) : string :=
  match rfind_dot nm 0 None with
  | Some i => if (0 <? i)%nat && (i <? String.length nm - 1)%nat
              then substring i (String.length nm - i) nm else ""
  | None => ""
  end.

(** [c in s] for a character [c]. *)
Fixpoint contains_char (c : ascii) (s : string) : bool :=
  match s with
  | EmptyString => false
  | String d s' => Ascii.eqb c d || contains_char c s'
  end.

(** A well-formed path component: non-empty, without a separator. *)
Definition valid_name (nm : string) : bool :=
  negb (String.eqb nm "") && negb (contains_char "/"%char nm).

(** [PurePath.with_suffix(suf)]; [None] is the [ValueError] for an invalid
    suffix or an empty name. *)
Definition with_suffix (p : path) (suf : string) : option path :=
  let nm := path_name p in
  if contains_char "/"%char suf then None else
  if (negb (String.eqb suf "") && negb (String.prefix "." suf)) || String.eqb suf "."
  then None else
  if String.eqb nm "" then None else
  let old := name_suffix nm in
  let nm' := if String.eqb old "" then (nm ++ suf)%string
             else (substring 0 (String.length nm - String.length old) nm ++ suf)%string in
  Some (path_parent p ++ [nm']).

(** [p] re-rooted from under [src] to under [dst]. *)
Definition reroot (src dst p : path) : path :=
  match strip_prefix src p with Some rest => dst ++ rest | None => p end.

Definition under (pre p : path) : bool := bool_decide (strip_prefix pre p <> None).

(** Order of a bottom-up walk: deeper paths first. *)
Definition deeper_first (a b : path) : Prop := (List.length b <= List.length a)%nat.
#[global] Instance deeper_first_dec : RelDecision deeper_first.
Proof. intros a b. unfold deeper_first. apply _. Defined.

(** *** Filesystem operations *)

(** [p.stat().st_size] (directory sizes are not modelled: 0). *)
Definition stat_size (p : path) : PyIO Z := fun w =>
  match w_files w !! p with
  | Some f => (inl (Z.of_nat (List.length (f_bytes f))), w)
  | None => if bool_decide (p ∈ w_dirs w) then (inl 0, w)
            else (inr "FileNotFoundError", w)
  end.

(** [p.chmod(p.stat().st_mode | stat.S_IWRITE)]. *)
Definition chmod_add_write (p : path) : PyIO unit := fun w =>
  match w_files w !! p with
  | Some f => (inl tt, set_files (<[p := {| f_bytes := f_bytes f;
                                             f_mode := Z.lor (f_mode f) 128 |}]> (w_files w)) w)
  | None => if bool_decide (p ∈ w_dirs w) then (inl tt, w)
            else (inr "FileNotFoundError", w)
  end.

(** [p.unlink(missing_ok=True)]. *)
Definition unlink_missing_ok (p : path) : PyIO unit := fun w =>
  match w_files w !! p with
  | Some _ => (inl tt, set_files (delete p (w_files w)) w)
  | None => if bool_decide (p ∈ w_dirs w) then (inr "IsADirectoryError", w)
            else (inl tt, w)
  end.

(** [send2trash(str(p))]: the file, or the directory with everything under
    it, leaves the filesystem for the trash. *)
Definition send2trash (p : path) : PyIO unit := fun w =>
  match w_files w !! p with
  | Some f => (inl tt, {| w_files := delete p (w_files w); w_dirs := w_dirs w;
                          w_trash := w_trash w ++ [(p, f)]; w_log := w_log w |})
  | None =>
    if bool_decide (p ∈ w_dirs w) then
      (inl tt, {| w_files := filter (fun kv => negb (under p kv.1)) (w_files w);
                  w_dirs := filter (fun d => negb (under p d)) (w_dirs w);
                  w_trash := w_trash w ++ map_to_list (filter (fun kv => under p kv.1) (w_files w));
                  w_log := w_log w |})
    else (inr "OSError", w)
  end.

(** [p.mkdir(parents=True, exist_ok=True)]: every proper prefix and [p]
    itself become directories; [FileExistsError] when one of them is a
    regular file. *)
Definition mkdir_parents (p : path) : PyIO unit := fun w =>
  let ancestors := map (fun i => take i p) (seq 1 (List.length p)) in
  if existsb (fun q => bool_decide (is_Some (w_files w !! q))) ancestors
  then (inr "FileExistsError", w)
  else (inl tt, set_dirs (list_to_set ancestors ∪ w_dirs w) w).

(** [os.rename(src, dst)]: a file, or a directory with its subtree. *)
Definition os_rename (src dst : path) : PyIO unit := fun w =>
  match w_files w !! src with
  | Some f =>
    if bool_decide (dst ∈ w_dirs w) then (inr "IsADirectoryError", w)
    else (inl tt, set_files (<[dst := f]> (delete src (w_files w))) w)
  | None =>
    if bool_decide (src ∈ w_dirs w) then
      (inl tt, {| w_files := list_to_map (map (fun kv => (reroot src dst kv.1, kv.2))
                                             (map_to_list (w_files w)));
                  w_dirs := set_map (reroot src dst) (w_dirs w);
                  w_trash := w_trash w; w_log := w_log w |})
    else (inr "FileNotFoundError", w)
  end.

(** [shutil.move(src, dst)]: into [dst] when it is a directory (an error if
    the name is taken there), else a rename onto [dst]. *)
Definition shutil_move (src dst : path) : PyIO unit := fun w =>
  if bool_decide (dst ∈ w_dirs w) then
    let real := dst ++ [path_name src] in
    if bool_decide (is_Some (w_files w !! real) \/ real ∈ w_dirs w)
    then (inr "shutil.Error", w)
    else os_rename src real w
  else os_rename src dst w.

(** ** The cleaner engine: acting on a scan

    [has_trash] is [send2trash is not None]; [qdir] is [QUARANTINE_DIR];
    [resolve] is [PathRule.resolve_base] on the rule's [path] (a rule name is
    one path component); [stop k] is the stop flag at the [k]-th check. *)
Section Act.
Variable cfg : AppConfig.
Variable has_trash : bool.
Variable qdir : path.
Variable resolve : string -> path.
Variable stop : nat -> bool.

(** [ensure_quarantine()]. *)
Definition ensure_quarantine : PyIO path := mkdir_parents qdir ;; io_ret qdir.

(** [_resolve_action]. *)
Definition resolve_action (r : PathRule) : ActionType :=
  if hard_recycle_only cfg then Recycle else action r.

(** The [delete] branch: make writable (errors ignored), then unlink. *)
Definition delete_branch (p : path) : PyIO unit :=
  io_try (chmod_add_write p) (fun _ => io_ret tt) ;;
  unlink_missing_ok p.

(** The quarantine destination [(qroot / rel).with_suffix(p.suffix)]. *)
Definition quarantine_dest (p : path) (r : PathRule) : option path :=
  let rel := match relative_to p (resolve (rule_path r)) with
             | Some rel => rel
             | None => [path_name p]
             end in
  with_suffix ((qdir ++ [name r]) ++ rel) (name_suffix (path_name p)).

(** The [quarantine] branch. *)
Definition quarantine_branch (p : path) (r : PathRule) : PyIO unit :=
  qroot0 <- ensure_quarantine ;;
  let qroot := qroot0 ++ [name r] in
  mkdir_parents qroot ;;
  match quarantine_dest p r with
  | None => io_raise "ValueError"
  | Some dest => mkdir_parents (path_parent dest) ;; shutil_move p dest
  end.

(** [except Exception as e: log(f"Failed: {p} → {e}"); return False]. *)
Definition report_failure (e : string) : PyIO bool :=
  io_log ("Failed: " ++ e)%string ;; io_ret false.

(** [_recycle_or_quarantine_or_delete]. *)
Definition recycle_or_quarantine_or_delete (p : path) (r : PathRule) : PyIO bool :=
  io_try
    (if dry_run cfg then io_ret true else
     let a := resolve_action r in
     if (bool_decide (a = Recycle)) && has_trash then send2trash p ;; io_ret true
     else if bool_decide (a = Delete) || negb (quarantine_enabled cfg)
     then delete_branch p ;; io_ret true
     else quarantine_branch p r ;; io_ret true)
    report_failure.

(** The loop of [act_on_files] from the [k]-th stop check on. *)
Fixpoint act_loop (k : nat) (ps : list path) (r : PathRule) (deleted freed : Z)
    : PyIO (Z * Z) :=
  match ps with
  | [] => io_ret (deleted, freed)
  | p :: ps' =>
    if stop k then io_ret (deleted, freed) else
    (* self.wait_if_paused() *)
    if deleted >=? max_total_delete cfg then io_ret (deleted, freed) else
    size <- io_try (stat_size p) (fun _ => io_ret 0) ;;
    ok <- recycle_or_quarantine_or_delete p r ;;
    if ok then act_loop (S k) ps' r (deleted + 1) (freed + size)
    else act_loop (S k) ps' r deleted freed
  end.

(** [act_on_files(res, log)]: [(deleted_files, freed_bytes)]. *)
Definition act_on_files (res : ScanResult) : PyIO (Z * Z) :=
  act_loop 0 (files res) (sr_rule res) 0 0.

(** [os.walk(base, topdown=False)]: the directories under [base], deepest
    first, so that each comes after everything below it. *)
Definition walk_bottom_up (base : path) (w : World) : list path :=
  merge_sort deeper_first (elements (filter (fun d => under base d) (w_dirs w))).

Definition has_entries (d : path) (w : World) : bool :=
  bool_decide (map_Exists (fun q _ => path_parent q = d /\ q <> d) (w_files w)) ||
  bool_decide (set_Exists (fun q => path_parent q = d /\ q <> d) (w_dirs w)).

(** [if not any(Path(root).iterdir()): p.rmdir()], errors ignored. *)
Definition rmdir_if_empty (d : path) : PyIO unit := fun w =>
  if bool_decide (d ∈ w_dirs w) && negb (has_entries d w)
  then (inl tt, set_dirs (w_dirs w ∖ {[ d ]}) w)
  else (inl tt, w).

Fixpoint cleanup_loop (k : nat) (ds : list path) : PyIO unit :=
  match ds with
  | [] => io_ret tt
  | d :: ds' => if stop k then io_ret tt else
                rmdir_if_empty d ;; cleanup_loop (S k) ds'
  end.

(** [cleanup_empty_dirs(base)]. *)
Definition cleanup_empty_dirs (base : path) : PyIO unit := fun w =>
  if dry_run cfg then (inl tt, w)
  else cleanup_loop 0 (walk_bottom_up base w) w.
End Act.

Definition qdir0 : path := ["home"; "u"; ".garbage_cleaner_quarantine"].
Definition base0 : path := ["tmp"; "x"].
Definition resolve0 : string -> path := fun _ => base0.
Definition file_a : path := base0 ++ ["sub"; "a.txt"].
Definition w0 : World :=
  {| w_files := {[ file_a := {| f_bytes := [1;2;3]; f_mode := 256 |} ]};
     w_dirs := list_to_set [["tmp"]; base0; base0 ++ ["sub"]];
     w_trash := []; w_log := [] |}.
Definition cfgq (dry qen : bool) : AppConfig :=
  {| dry_run := dry; quarantine_enabled := qen; follow_symlinks := false;
     max_delete_per_rule := 50000; max_total_delete := 200000;
     log_age_off_days := 30; hard_recycle_only := false |}.
Definition ruleR (a : ActionType) : PathRule :=
  {| name := "R"; rule_path := "/tmp/x"; patterns := ["*"]; min_age_days := 0;
     remove_empty_dirs := true; action := a; enabled := true |}.
Definition sr (a : ActionType) : ScanResult :=
  {| sr_rule := ruleR a; files := [file_a]; total_size := 3 |}.

(** [p.stat().st_size] in [w], or 0 when the stat raises. *)
Definition size_in (w : World) (p : path) : Z :=
  match stat_size p w with (inl s, _) => s | (inr _, _) => 0 end.

Definition sum_sizes (w : World) (ps : list path) : Z :=
  fold_right (fun p acc => size_in w p + acc) 0 ps.

(** A rule whose base directory is the quarantine folder of a rule named
    ["R"]: [/home/u/.garbage_cleaner_quarantine/R/sub/a.txt]. *)
Definition base_alias : path := qdir0 ++ ["R"].
Definition file_alias : path := base_alias ++ ["sub"; "a.txt"].
Definition w_alias : World :=
  {| w_files := {[ file_alias := {| f_bytes := [7]; f_mode := 256 |} ]};
     w_dirs := list_to_set [base_alias; base_alias ++ ["sub"]];
     w_trash := []; w_log := [] |}.
Definition sr_alias : ScanResult :=
  {| sr_rule := ruleR Quarantine; files := [file_alias]; total_size := 1 |}.


(** ** The scheduler *)

(** Strings are sequences of code points below 256. [str.isspace]: tab to
    carriage return, the separators 28 to 31, space, NEL and NBSP. *)
Definition is_space (c : ascii) : bool :=
  let n := nat_of_ascii c in
  ((9 <=? n) && (n <=? 13))%nat || ((28 <=? n) && (n <=? 32))%nat ||
  (n =? 133)%nat || (n =? 160)%nat.

(** The whitespace [int(str)] skips around the number: the ASCII
    characters of C's [isspace] (the separators 28 to 31 are not among them),
    and NEL and NBSP, which it turns into spaces first. *)
Definition is_int_space (c : ascii) : bool :=
  let n := nat_of_ascii c in
  ((9 <=? n) && (n <=? 13))%nat || (n =? 32)%nat || (n =? 133)%nat || (n =? 160)%nat.

Fixpoint drop_spaces (sp : ascii -> bool) (l : list ascii) : list ascii :=
  match l with
  | c :: l' => if sp c then drop_spaces sp l' else l
  | [] => []
  end.

Definition strip_list (sp : ascii -> bool) (l : list ascii) : list ascii :=
  rev (drop_spaces sp (rev (drop_spaces sp l))).

(** [s.strip()]. *)
Definition py_strip (s : string) : string :=
  string_of_list_ascii (strip_list is_space (list_ascii_of_string s)).

(** [s.lower()]: the capitals [A]-[Z] and the Latin-1 capitals (192 to 222
    but the multiplication sign 215) map to the letter 32 code points up. *)
Definition py_lower (s : string) : string :=
  string_of_list_ascii
    (map (fun c => let n := nat_of_ascii c in
                   if ((65 <=? n) && (n <=? 90))%nat ||
                      ((192 <=? n) && (n <=? 222) && negb (n =? 215))%nat
                   then ascii_of_nat (n + 32) else c)
         (list_ascii_of_string s)).

Definition is_digit (c : ascii) : bool :=
  let n := nat_of_ascii c in (48 <=? n)%nat && (n <=? 57)%nat.

(** Decimal digits with single underscores between digits, as [int]
    accepts them; [after_digit] tells whether the previous character was a
    digit. *)
Fixpoint parse_digits (l : list ascii) (acc : Z) (after_digit : bool) : option Z :=
  match l with
  | [] => if after_digit then Some acc else None
  | c :: l' =>
    if is_digit c then parse_digits l' (acc * 10 + Z.of_nat (nat_of_ascii c - 48)) true
    else if Ascii.eqb c "_"%char && after_digit then parse_digits l' acc false
    else None
  end.

(** [int(x)] on a [str]: surrounding whitespace, an optional sign, decimal
    digits; [None] is the [ValueError]. *)
Definition py_int (s : string) : option Z :=
  match strip_list is_int_space (list_ascii_of_string s) with
  | "+"%char :: l => parse_digits l 0 false
  | "-"%char :: l => option_map Z.opp (parse_digits l 0 false)
  | l => parse_digits l 0 false
  end.

(** [s.split(":", 1)] when it has two parts. *)
Definition split_colon (s : string) : option (string * string) :=
  match index 0 ":" s with
  | Some i => Some (substring 0 i s, substring (S i) (String.length s - S i) s)
  | None => None
  end.

(** A schedule entry: the JSON object / [dict] of the schedule document. *)
Abbreviation task := (gmap string string).

(** [{"name": name, "action": action, "time": time_str}]. *)
Definition mk_task (nm act tm : string) : task :=
  <["name" := nm]> (<["action" := act]> {[ "time" := tm ]}).

(** [hh, mm = [int(x) for x in t.get("time","00:00").split(":",1)]] and
    [now.replace(hour=hh, minute=mm, ...)]: [None] when one of them raises. *)
Definition parse_hhmm (s : string) : option (Z * Z) :=
  match split_colon s with
  | Some (a, b) =>
    match py_int a, py_int b with
    | Some hh, Some mm =>
      if (0 <=? hh) && (hh <=? 23) && (0 <=? mm) && (mm <=? 59) then Some (hh, mm) else None
    | _, _ => None
    end
  | None => None
  end.

Definition task_time (t : task) : option (Z * Z) :=
  parse_hhmm (default "00:00" (t !! "time")).

(** The calls of [_run_action]. *)
Inductive AppCall := CScan | CClean | CPurgePip | CPurgeNpm | CUnknown (a : string).

Definition run_action (a : string) : AppCall :=
  let a' := py_lower (py_strip a) in
  if String.eqb a' "scan" then CScan
  else if String.eqb a' "clean" then CClean
  else if String.eqb a' "purge_pip" then CPurgePip
  else if String.eqb a' "purge_npm" then CPurgeNpm
  else CUnknown a.

(** Local time of day in microseconds ([datetime.now()] on the same date as
    the target). *)
Definition usec : Z := 1000000.
Definition target_of (hh mm : Z) : Z := (hh * 3600 + mm * 60) * usec.

(** [now >= target and now - target < timedelta(seconds=30)]. *)
Definition in_window (hh mm now : Z) : bool :=
  (target_of hh mm <=? now) && (now - target_of hh mm <? 30 * usec).

(** One [SimpleScheduler._tick] at time [now]: the actions it runs, in
    order (an entry whose time does not parse is skipped). *)
Definition tick (tasks : list task) (now : Z) : list AppCall :=
  flat_map (fun t => match task_time t with
                     | Some (hh, mm) =>
                       if in_window hh mm now
                       then [run_action (default "" (t !! "action"))] else []
                     | None => []
                     end) tasks.

(** [n] ticks from [start], the next one [after(15_000)] ms each time. *)
Definition run_ticks (tasks : list task) (start : Z) (n : nat) : list AppCall :=
  flat_map (fun i => tick tasks (start + Z.of_nat i * 15 * usec)) (seq 0 n).

(** The scheduler with the parts of the application it touches: the task
    list, the persisted schedule document, the rows of the schedule table,
    the UI log and the toast line. *)
Record SchedState := {
  s_tasks : list task;
  s_doc : list task;
  s_rows : list task;
  s_log : list string;
  s_toast : string
}.

(** [SimpleScheduler.add]: append, [save_schedules], refresh the table. *)
Definition sched_add (nm act tm : string) (st : SchedState) : SchedState :=
  let ts := s_tasks st ++ [mk_task nm act tm] in
  {| s_tasks := ts; s_doc := ts; s_rows := ts; s_log := s_log st; s_toast := s_toast st |}.

(** [self.s_name.get().strip() or f"Task {len(self.scheduler.tasks)+1}"]. *)
Definition default_name (s_name : string) (st : SchedState) : string :=
  let nm := py_strip s_name in
  if String.eqb nm "" then ("Task " ++ pretty (N.of_nat (S (List.length (s_tasks st)))))%string
  else nm.

(** [CleanerApp._add_schedule] with the form fields [s_name], [s_action],
    [s_time]. *)
Definition add_schedule (s_name s_action s_time : string) (st : SchedState) : SchedState :=
  let nm := default_name s_name st in
  let act := py_strip s_action in
  let tm := py_strip s_time in
  let st1 := sched_add nm act tm st in
  {| s_tasks := s_tasks st1; s_doc := s_doc st1; s_rows := s_rows st1;
     s_log := s_log st1 ++ ["Scheduled: " ++ nm ++ " @ " ++ tm ++ " → " ++ act]%string;
     s_toast := ("Scheduled: " ++ nm)%string |}.

Definition sched0 : SchedState :=
  {| s_tasks := []; s_doc := []; s_rows := []; s_log := []; s_toast := "" |}.

Definition clean_0230 : task := mk_task "nightly" "clean" "02:30".

(** ** The stop and pause flags of [CleanerEngine] *)

Record Flags := {
  stop_set : bool;
  pause_set : bool
}.

(** [CleanerEngine.stop]. *)
Definition engine_stop (fl : Flags) : Flags :=
  {| stop_set := true; pause_set := false |}.

(** [CleanerEngine.toggle_pause(value)]. *)
Definition toggle_pause (v : bool) (fl : Flags) : Flags :=
  {| stop_set := stop_set fl; pause_set := v |}.

(** [while self._pause.is_set() and not self._stop.is_set(): time.sleep(0.1)]
    with [obs j] the flags read at the [j]-th test (other threads may change
    them in between); [Some j] when the loop leaves at the [j]-th test,
    [None] when [fuel] tests were not enough. *)
Fixpoint wait_if_paused (fuel : nat) (obs : nat -> Flags) (j : nat) : option nat :=
  match fuel with
  | O => None
  | S fuel' =>
    if pause_set (obs j) && negb (stop_set (obs j)) then wait_if_paused fuel' obs (S j)
    else Some j
  end.

(** ** [SimpleScheduler.remove] *)

(** [if 0 <= idx < len(self.tasks)]: [pop], [save_schedules], refresh. *)
Definition sched_remove (idx : Z) (st : SchedState) : SchedState :=
  if (0 <=? idx) && (idx <? Z.of_nat (List.length (s_tasks st))) then
    let ts := delete (Z.to_nat idx) (s_tasks st) in
    {| s_tasks := ts; s_doc := ts; s_rows := ts; s_log := s_log st; s_toast := s_toast st |}
  else st.

(** ** [human_bytes]

    [human_bytes(n)] on an [int] [n] with [|n| < 2^53]: each [n /= step]
    is then exact, so after [k] divisions [n] is the rational [n / 1024^k],
    and [n < step] is [n < 1024^(k+1)]. *)

(** [a / d] rounded to the nearest integer, ties to even ([d > 0]). *)
Definition round_half_even (a d : Z) : Z :=
  let q := a / d in
  let r := a mod d in
  if 2 * r <? d then q
  else if d <? 2 * r then q + 1
  else if Z.even q then q else q + 1.

(** [f"{x:.1f}"] for [x = num / den >= 0]. *)
Definition fmt_1f (num den : Z) : string :=
  let t := round_half_even (10 * num) den in
  (pretty (t / 10) ++ "." ++ pretty (t mod 10))%string.

(** [for unit in units: if n < step: return ...; n /= step], [k] divisions
    done so far. *)
Fixpoint human_bytes_go (units : list string) (n : Z) (k : nat) : string :=
  match units with
  | [] => (fmt_1f n (1024 ^ Z.of_nat k) ++ " PB")%string
  | unit :: units' =>
    if n <? 1024 ^ Z.of_nat (S k) then
      if String.eqb unit "B" then (pretty n ++ " " ++ unit)%string
      else (fmt_1f n (1024 ^ Z.of_nat k) ++ " " ++ unit)%string
    else human_bytes_go units' n (S k)
  end.

Definition human_bytes (n : Z) : string :=
  human_bytes_go ["B"; "KB"; "MB"; "GB"; "TB"] n 0.

(** ** The rule editor *)

(** [s.split(c)] for a one-character separator [c]. *)
Fixpoint split_char (c : ascii) (s : string) : list string :=
  match s with
  | EmptyString => [""]
  | String d s' =>
    let rest := split_char c s' in
    if Ascii.eqb d c then "" :: rest
    else match rest with
         | r :: rs => String d r :: rs
         | [] => [String d ""]
         end
  end.

(** [[s.strip() for s in text.split(',') if s.strip()]]. *)
Definition parse_patterns (text : string) : list string :=
  omap (fun s => if String.eqb (py_strip s) "" then None else Some (py_strip s))
       (split_char "," text).

(** The editor's variables. [var_age] is what [IntVar.get] makes of the
    text of the editable age Spinbox: [Some n] for an integer it reads,
    [None] when it raises [TclError] (text that is not a number);
    [var_action] holds one of the values of the read-only combobox. *)
Record RuleForm := {
  var_name : string;
  var_path : string;
  var_patterns : string;
  var_age : option Z;
  var_action : ActionType;
  var_enabled : bool;
  var_rm_empty : bool
}.

(** The rule list, the selected row of the rule table (its iid, the
    index of the rule), the editor, the error dialogs shown, the toast line
    and the UI log. *)
Record RulesApp := {
  a_rules : list PathRule;
  a_sel : option nat;
  a_form : RuleForm;
  a_errors : list string;
  a_toast : string;
  a_log : list string
}.

Definition set_form (f : RuleForm) (st : RulesApp) : RulesApp :=
  {| a_rules := a_rules st; a_sel := a_sel st; a_form := f; a_errors := a_errors st;
     a_toast := a_toast st; a_log := a_log st |}.

(** The editor filled from rule [r], [", ".join(r.patterns)] for the
    patterns. *)
Definition rule_form (r : PathRule) : RuleForm :=
  {| var_name := name r; var_path := rule_path r;
     var_patterns := String.concat ", " (patterns r); var_age := Some (min_age_days r);
     var_action := action r; var_enabled := enabled r;
     var_rm_empty := remove_empty_dirs r |}.

(** [CleanerApp._on_rule_select]: [self.rules[idx]] out of range raises
    [IndexError], which ends the callback. *)
Definition on_rule_select (st : RulesApp) : RulesApp :=
  match a_sel st with
  | None => st
  | Some idx =>
    match a_rules st !! idx with
    | Some r => set_form (rule_form r) st
    | None => st
    end
  end.

(** [CleanerApp.update_rule_from_form]. A [TclError] from
    [self.var_age.get()] ends the callback before anything is changed;
    [self.rules[idx] = rule] with [idx] out of range raises [IndexError]
    likewise. *)
Definition update_rule_from_form (st : RulesApp) : RulesApp :=
  let f := a_form st in
  let nm := py_strip (var_name f) in
  if String.eqb nm "" then
    {| a_rules := a_rules st; a_sel := a_sel st; a_form := f;
       a_errors := a_errors st ++ ["Rule name required"];
       a_toast := a_toast st; a_log := a_log st |}
  else
  match var_age f with
  | None => st
  | Some age =>
  let rule := {| name := nm; rule_path := py_strip (var_path f);
                 patterns := parse_patterns (var_patterns f);
                 min_age_days := age; action := var_action f;
                 enabled := var_enabled f; remove_empty_dirs := var_rm_empty f |} in
  let saved rs :=
    {| a_rules := rs; a_sel := a_sel st; a_form := f; a_errors := a_errors st;
       a_toast := "Rule saved"; a_log := a_log st ++ ["Rule saved: " ++ nm]%string |} in
  match a_sel st with
  | Some idx =>
    if (idx <? List.length (a_rules st))%nat then saved (<[idx := rule]> (a_rules st))
    else st
  | None => saved (a_rules st ++ [rule])
  end
  end.

(** The loop of [add_browser_rules] and [add_os_rules] over the preset
    rules [news]: the new rule list and [added]. *)
Definition add_preset_rules (news rules : list PathRule) : list PathRule * Z :=
  fold_left (fun acc r =>
               let '(rs, added) := acc in
               if forallb (fun e => negb (String.eqb (name e) (name r))) rs
               then (rs ++ [r], added + 1) else (rs, added))
            news (rules, 0).

(** ** [CleanerApp.age_off_logs]

    The entries of [LOGS_DIR] by name: [st_mtime] ([None] when [stat]
    raises) and whether the entry is a directory. *)
Record LogEntry := {
  le_mtime : option Z;
  le_is_dir : bool
}.

(** A name matched by [glob("*.log*")] (case-sensitive, as on POSIX): it
    contains [".log"]. *)
Definition log_glob (nm : string) : bool := bool_decide (index 0 ".log" nm <> None).

(** The body of the loop for the entry [nm]: whether it is unlinked
    ([unlink] on a directory raises, and the error is ignored). *)
Definition aged_off (cutoff : Z) (nm : string) (e : LogEntry) : bool :=
  log_glob nm &&
  match le_mtime e with
  | Some m => (m <? cutoff) && negb (le_is_dir e)
  | None => false
  end.

Definition age_off_logs (cfg : AppConfig) (now : Z) (logs : gmap string LogEntry)
    : gmap string LogEntry :=
  let days := Z.max 1 (log_age_off_days cfg) in
  let cutoff := now - days * 86400 in
  filter (fun kv => negb (aged_off cutoff kv.1 kv.2)) logs.

Definition pad2 (n : Z) : string := if n <? 10 then ("0" ++ pretty n)%string else pretty n.

Definition cfgh (dry : bool) : AppConfig :=
  {| dry_run := dry; quarantine_enabled := true; follow_symlinks := false;
     max_delete_per_rule := 50000; max_total_delete := 200000;
     log_age_off_days := 30; hard_recycle_only := true |}.


Definition form_blank : RuleForm :=
  {| var_name := "  "; var_path := "/tmp"; var_patterns := "*"; var_age := Some 0;
     var_action := Delete; var_enabled := true; var_rm_empty := false |}.

Definition app_blank : RulesApp :=
  {| a_rules := [ruleR Delete]; a_sel := None; a_form := form_blank;
     a_errors := []; a_toast := ""; a_log := [] |}.

Definition app_sel0 : RulesApp :=
  {| a_rules := [ruleR Delete; ruleR Quarantine]; a_sel := Some 1%nat; a_form := form_blank;
     a_errors := []; a_toast := ""; a_log := [] |}.

Definition form_edit : RuleForm :=
  {| var_name := " Tmp "; var_path := " /tmp/y"; var_patterns := "*.tmp, ,*.log";
     var_age := Some 3; var_action := Delete; var_enabled := true; var_rm_empty := true |}.

Definition app_edit0 : RulesApp :=
  {| a_rules := [ruleR Delete; ruleR Quarantine]; a_sel := Some 0%nat; a_form := form_edit;
     a_errors := []; a_toast := ""; a_log := [] |}.

Definition logs0 : gmap string LogEntry :=
  <[ "app.log" := {| le_mtime := Some 0; le_is_dir := false |} ]>
  (<[ "app.log.1" := {| le_mtime := Some 4990000; le_is_dir := false |} ]> ∅).

Definition fs_size (fs : FsView) (p : path) : Z :=
  match fs_stat fs p with POk (_, s) => s | _ => 0 end.

Definition scan_inv (fs : FsView) (cfg : AppConfig) (allowed : path -> Prop)
    (acc : ScanAcc) : Prop :=
  NoDup (acc_files acc) /\
  (forall p, In p (acc_files acc) -> p ∈ acc_seen acc) /\
  acc_size acc = fold_right Z.add 0 (map (fs_size fs) (acc_files acc)) /\
  Forall (fun p => fs_is_dir fs p = POk false /\
                   (follow_symlinks cfg = true \/ fs_is_symlink fs p = POk false) /\
                   allowed p) (acc_files acc).

Section Clean.
Variable cfg : AppConfig.
Variable has_trash : bool.
Variable qdir : path.
Variable resolve : string -> path.
(** [flag i]: [self.engine._stop.is_set()] before the [i]-th scan result;
    [astop i] and [cstop i]: the flag as [act_on_files] and
    [cleanup_empty_dirs] see it while they handle that result. *)
Variable flag : nat -> bool.
Variable astop cstop : nat -> nat -> bool.

Fixpoint clean_loop (i : nat) (rs : list ScanResult) (dt ft : Z) : PyIO (Z * Z) :=
  match rs with
  | [] => io_ret (dt, ft)
  | res :: rs' =>
    if flag i then io_ret (dt, ft) else
    db <- act_on_files cfg has_trash qdir resolve (astop i) res ;;
    let '(d, b) := db in
    (if remove_empty_dirs (sr_rule res)
     then io_try (cleanup_empty_dirs cfg (cstop i) (resolve (rule_path (sr_rule res))))
                 (fun _ => io_ret tt)
     else io_ret tt) ;;
    io_log ("Cleaned '" ++ name (sr_rule res) ++ "': " ++ pretty d ++ " files")%string ;;
    clean_loop (S i) rs' (dt + d) (ft + b)
  end.

(** [CleanerApp._clean_worker] over [self.scan_results]. [_status],
    [_progress_stop] and [_log_to_ui] catch their own errors, but
    [self.lbl_status.config(text=done_text)] does not: it raises
    ([TclError], or [RuntimeError] once the main loop is gone) when the
    window has been destroyed, [ui_alive = false], and the final log line
    is then not written. The totals are returned to state properties of
    them. *)
Definition clean_worker (ui_alive : bool) (results : list ScanResult) : PyIO (Z * Z) :=
  tot <- clean_loop 0 results 0 0 ;;
  let '(dt, ft) := tot in
  (if ui_alive then io_ret tt else io_raise "TclError") ;;
  io_log ("DONE. Freed approx " ++ human_bytes ft ++ " (dry_run=" ++
          (if dry_run cfg then "True" else "False") ++ ")")%string ;;
  io_ret (dt, ft).
End Clean.

(** The most [act_on_files] can delete for one scan result:
    [min(len(res.files), max(0, max_total_delete))]. *)
Definition res_cap (cfg : AppConfig) (res : ScanResult) : Z :=
  Z.min (Z.of_nat (List.length (files res))) (Z.max 0 (max_total_delete cfg)).

Definition cfg_dry1 : AppConfig :=
  {| dry_run := true; quarantine_enabled := true; follow_symlinks := false;
     max_delete_per_rule := 50000; max_total_delete := 1;
     log_age_off_days := 30; hard_recycle_only := false |}.

(** * Properties *)

(** ** Enumeration *)

Lemma scan_entry_files fs cfg rule cutoff p acc acc' b :
  scan_entry fs cfg rule cutoff p acc = Some (acc', b) ->
  acc_files acc' = acc_files acc \/
  (acc_files acc' = acc_files acc ++ [p] /\
   (0 < min_age_days rule -> older_than fs p cutoff = POk true)).
Proof.
  unfold scan_entry.
  case_bool_decide; [intros [= <- _]; auto|].
  destruct (fs_is_dir fs p) as [[]| |]; try (intros [= <- _]; auto); try discriminate.
  destruct (if follow_symlinks cfg then _ else _) as [[]| |];
    try (intros [= <- _]; auto); try discriminate.
  destruct (0 <? min_age_days rule) eqn:Hage.
  - destruct (older_than fs p cutoff) as [[]| |] eqn:Ho;
      try (intros [= <- _]; auto); try discriminate.
  - intros [= <- _]. right. split; [reflexivity|]. intros Hlt. apply Z.ltb_ge in Hage. lia.
Qed.

Section FilesInvariant.
Variable fs : FsView.
Variable cfg : AppConfig.
Variable stop : nat -> bool.
Variable rule : PathRule.
Variable cutoff : Z.
Let Q (p : path) := 0 < min_age_days rule -> older_than fs p cutoff = POk true.

Lemma scan_entries_files ps acc :
  Forall Q (acc_files acc) ->
  match scan_entries fs cfg stop rule cutoff ps acc with
  | inl a | inr a => Forall Q (acc_files a)
  end.
Proof.
  revert acc; induction ps as [|p ps IH]; intros acc Hacc; simpl; [exact Hacc|].
  destruct (stop (acc_checks acc)); [exact Hacc|].
  destruct (scan_entry fs cfg rule cutoff p _) as [[acc2 []]|] eqn:He;
    [| apply IH |]; try exact Hacc;
    destruct (scan_entry_files _ _ _ _ _ _ _ _ He) as [-> | [-> Hp]]; simpl;
    try exact Hacc; apply Forall_app; split; auto.
Qed.

Lemma scan_patterns_files base pats acc :
  Forall Q (acc_files acc) ->
  Forall Q (acc_files (scan_patterns fs cfg stop rule cutoff base pats acc)).
Proof.
  revert acc; induction pats as [|pat pats IH]; intros acc Hacc; simpl; [exact Hacc|].
  pose proof (scan_entries_files (fs_rglob fs base pat) acc Hacc) as H.
  destruct (scan_entries _ _ _ _ _ _ _); auto.
Qed.
End FilesInvariant.

(** Two runs whose per-entry step agrees, over the same traversal, agree. *)
Lemma scan_patterns_ext fs1 fs2 cfg stop rule c1 c2 base pats acc :
  (forall p a, scan_entry fs1 cfg rule c1 p a = scan_entry fs2 cfg rule c2 p a) ->
  (forall pat, fs_rglob fs1 base pat = fs_rglob fs2 base pat) ->
  scan_patterns fs1 cfg stop rule c1 base pats acc =
  scan_patterns fs2 cfg stop rule c2 base pats acc.
Proof.
  intros He Hg. revert acc; induction pats as [|pat pats IH]; intros acc; simpl; [done|].
  rewrite Hg.
  assert (Hs : forall ps a, scan_entries fs1 cfg stop rule c1 ps a =
                            scan_entries fs2 cfg stop rule c2 ps a).
  { induction ps as [|p ps IHp]; intros a; simpl; [done|].
    destruct (stop (acc_checks a)); [done|]. rewrite He.
    destruct (scan_entry fs2 _ _ _ _ _) as [[? []]|]; auto. }
  rewrite Hs. destruct (scan_entries _ _ _ _ _ _ _); auto.
Qed.

(** With the single pattern [*.a] matching ten files and
    [max_delete_per_rule = 3], the scan stops at three files. *)
Example enumerate_one_pattern_cap3 :
  List.length (files (enumerate_rule (demo_fs rg_ab (fun _ => 0)) (cfg_cap 3)
                        no_stop 1000 (rule_pats ["*.a"] 0))) = 3%nat.
Proof. vm_compute. reflexivity. Qed.

(** C3 (failing input). [max_delete_per_rule = 3], patterns [*.a] and [*.b]
    matching ten files each: [enumerate_rule] returns four files, the
    [break] at the cap leaving only the loop of the current pattern. *)
Theorem enumerate_cap_two_patterns :
  files (enumerate_rule (demo_fs rg_ab (fun _ => 0)) (cfg_cap 3) no_stop 1000
           (rule_pats ["*.a"; "*.b"] 0)) =
  [demo_base ++ ["f0.a"]; demo_base ++ ["f1.a"]; demo_base ++ ["f2.a"];
   demo_base ++ ["f0.b"]].
Proof. vm_compute. reflexivity. Qed.

(** C7. A disabled rule, or a rule whose resolved base does not exist,
    yields the empty [ScanResult] (no files, size 0), whatever the rest of
    the filesystem, configuration, stop flag and clock; [enumerate_rule]
    only reads the filesystem, so nothing is mutated. *)
Theorem enumerate_disabled_or_missing fs cfg stop now r :
  enabled r = false \/ fs_exists fs (fs_resolve fs (rule_path r)) = false ->
  enumerate_rule fs cfg stop now r = empty_result r.
Proof.
  intros [Hd | He]; unfold enumerate_rule.
  - rewrite Hd. reflexivity.
  - destruct (enabled r); simpl; [|reflexivity]. rewrite He. reflexivity.
Qed.

Lemma enumerate_disabled_or_missing_witness :
  enumerate_rule fs_old_log (cfg_cap 3) no_stop 0
    {| name := "R"; rule_path := "/tmp/x"; patterns := ["*"]; min_age_days := 0;
       remove_empty_dirs := true; action := Delete; enabled := false |} =
  empty_result
    {| name := "R"; rule_path := "/tmp/x"; patterns := ["*"]; min_age_days := 0;
       remove_empty_dirs := true; action := Delete; enabled := false |}.
Proof. apply enumerate_disabled_or_missing. left. reflexivity. Defined.

(** C8. With [min_age_days > 0], a file whose modification time is strictly
    later than [now - min_age_days * 86400] is not in the result; with
    [min_age_days = 0] the result does not depend on the clock nor on any
    modification time. *)
Theorem enumerate_age_filter fs cfg stop now r :
  (0 < min_age_days r -> forall p m s, fs_stat fs p = POk (m, s) ->
     now - min_age_days r * 86400 < m ->
     ~ In p (files (enumerate_rule fs cfg stop now r))) /\
  (min_age_days r = 0 -> forall g now',
     enumerate_rule fs cfg stop now r =
     enumerate_rule (with_mtimes g fs) cfg stop now' r).
Proof.
  split.
  - intros Hage p m s Hst Hnew Hin. unfold enumerate_rule in Hin.
    destruct (enabled r); simpl in Hin; [|contradiction].
    destruct (fs_exists fs _); simpl in Hin; [|contradiction].
    pose proof (scan_patterns_files fs cfg stop r (now - min_age_days r * 86400)
                  (fs_resolve fs (rule_path r)) (patterns r) acc0 (Forall_nil_2 _)) as HF.
    rewrite List.Forall_forall in HF. specialize (HF p Hin Hage).
    unfold older_than in HF. rewrite Hst in HF. injection HF as HF.
    apply Z.ltb_lt in HF. lia.
  - intros Hage g now'. unfold enumerate_rule. simpl.
    destruct (enabled r), (fs_exists fs _); simpl; try reflexivity.
    rewrite (scan_patterns_ext fs (with_mtimes g fs) cfg stop r
               (now - min_age_days r * 86400) (now' - min_age_days r * 86400));
      [reflexivity| |reflexivity].
    intros p a. unfold scan_entry. simpl. rewrite Hage. simpl.
    destruct (fs_stat fs p) as [[m s]| |]; reflexivity.
Qed.

Lemma enumerate_age_filter_witness :
  ~ In old_log (files (enumerate_rule fs_old_log (cfg_cap 3) no_stop 87000
                         (rule_pats ["*"] 1))) /\
  enumerate_rule fs_old_log (cfg_cap 3) no_stop 0 (rule_pats ["*"] 0) =
  enumerate_rule (with_mtimes (fun _ _ => 5) fs_old_log) (cfg_cap 3) no_stop 7
    (rule_pats ["*"] 0).
Proof.
  split.
  - apply (proj1 (enumerate_age_filter fs_old_log (cfg_cap 3) no_stop 87000
                    (rule_pats ["*"] 1)) ltac:(simpl; lia) old_log 1000 1);
      [reflexivity | simpl; lia].
  - apply (proj2 (enumerate_age_filter fs_old_log (cfg_cap 3) no_stop 0
                    (rule_pats ["*"] 0)) eq_refl).
Defined.

(** C9 (counterexample). No filesystem change between two scans one second
    apart: the file modified at 1000 is too recent for [min_age_days = 1]
    at [now = 87400] and old enough at [now = 87401]. *)
Theorem enumerate_twice_differs :
  files (enumerate_rule fs_old_log (cfg_cap 50000) no_stop 87400 (rule_pats ["*"] 1)) = [] /\
  files (enumerate_rule fs_old_log (cfg_cap 50000) no_stop 87401 (rule_pats ["*"] 1)) = [old_log].
Proof. split; vm_compute; reflexivity. Qed.

(** C9 (amended). Two scans of the same filesystem with the same
    configuration, rule and stop flag give the same [ScanResult] whenever no
    file changes side of the age cutoff between them: with
    [min_age_days <= 0] the age is never consulted and the scans always
    agree; otherwise it suffices that [older_than] answers alike at both
    cutoffs. *)
Theorem enumerate_repeat_same fs cfg stop now1 now2 r :
  (0 < min_age_days r ->
   forall p, older_than fs p (now1 - min_age_days r * 86400) =
             older_than fs p (now2 - min_age_days r * 86400)) ->
  enumerate_rule fs cfg stop now1 r = enumerate_rule fs cfg stop now2 r.
Proof.
  intros Hold. unfold enumerate_rule.
  destruct (enabled r), (fs_exists fs _); simpl; try reflexivity.
  rewrite (scan_patterns_ext fs fs cfg stop r
             (now1 - min_age_days r * 86400) (now2 - min_age_days r * 86400));
    [reflexivity| |reflexivity].
  intros p a. unfold scan_entry.
  destruct (Z.ltb_spec 0 (min_age_days r)) as [Hpos|_]; [|reflexivity].
  rewrite (Hold Hpos p). reflexivity.
Qed.

Lemma enumerate_repeat_same_witness :
  enumerate_rule fs_old_log (cfg_cap 50000) no_stop 90000 (rule_pats ["*"] 1) =
  enumerate_rule fs_old_log (cfg_cap 50000) no_stop 90001 (rule_pats ["*"] 1) /\
  enumerate_rule fs_old_log (cfg_cap 50000) no_stop 87400 (rule_pats ["*"] 0) =
  enumerate_rule fs_old_log (cfg_cap 50000) no_stop 87401 (rule_pats ["*"] 0).
Proof.
  split.
  - apply enumerate_repeat_same. intros _ p. vm_compute. reflexivity.
  - apply enumerate_repeat_same. intros Hpos. exfalso. simpl in Hpos. lia.
Defined.

(** ** Names and suffixes *)

Lemma string_append_empty_r (s : string) : (s ++ "")%string = s.
Proof. induction s as [|c s IH]; [done|]. transitivity (String c (s ++ "")); [done|]. by rewrite IH. Qed.

Lemma substring_full (s : string) : substring 0 (String.length s) s = s.
Proof. induction s as [|c s IH]; simpl; [done|]. by rewrite IH. Qed.

Lemma substring_split (s : string) (n : nat) :
  (n <= String.length s)%nat ->
  (substring 0 n s ++ substring n (String.length s - n) s)%string = s.
Proof.
  revert n; induction s as [|c s IH]; intros n Hn; simpl in *.
  - destruct n; [reflexivity | lia].
  - destruct n as [|n]; simpl.
    + by rewrite substring_full.
    + transitivity (String c (substring 0 n s ++ substring n (String.length s - n) s));
        [reflexivity | f_equal; apply IH; lia].
Qed.

Lemma substring_length (s : string) (n m : nat) :
  (n + m <= String.length s)%nat -> String.length (substring n m s) = m.
Proof.
  revert n m; induction s as [|c s IH]; intros n m H; simpl in *.
  - destruct n, m; simpl in *; lia.
  - destruct n as [|n], m as [|m]; simpl;
      [reflexivity | f_equal; apply (IH 0%nat); lia | apply IH; lia | apply IH; lia].
Qed.

Lemma substring_cons (s : string) (i m : nat) (c : ascii) :
  String.get i s = Some c -> (1 <= m)%nat ->
  substring i m s = String c (substring (S i) (m - 1) s).
Proof.
  revert i m; induction s as [|d s IH]; intros i m Hg Hm; [discriminate|].
  destruct i as [|i]; simpl in Hg.
  - injection Hg as <-. destruct m as [|m]; [lia|]. simpl.
    rewrite Nat.sub_0_r. reflexivity.
  - simpl. apply IH; auto.
Qed.

Lemma contains_substring (c : ascii) (s : string) (n m : nat) :
  contains_char c s = false -> contains_char c (substring n m s) = false.
Proof.
  revert n m; induction s as [|d s IH]; intros n m H; simpl in *.
  - destruct n, m; reflexivity.
  - apply orb_false_iff in H as [H1 H2].
    destruct n as [|n], m as [|m]; simpl; auto.
    rewrite H1. simpl. apply (IH 0%nat). exact H2.
Qed.

Lemma rfind_dot_spec (s : string) (i : nat) (acc : option nat) (j : nat) :
  rfind_dot s i acc = Some j ->
  acc = Some j \/ ((i <= j)%nat /\ String.get (j - i) s = Some "."%char).
Proof.
  revert i acc; induction s as [|c s IH]; intros i acc H; simpl in H; [auto|].
  destruct (IH _ _ H) as [Hacc | [Hle Hg]].
  - destruct (Ascii.eqb c "."%char) eqn:Hc; [|auto].
    injection Hacc as <-. right. apply Ascii.eqb_eq in Hc. subst c.
    rewrite Nat.sub_diag. auto.
  - right. split; [lia|].
    replace (j - i)%nat with (S (j - S i)) by lia. exact Hg.
Qed.

(** [p.with_suffix(p.suffix)] is [p] for a well-formed name. *)
Lemma with_suffix_same (p : path) :
  valid_name (path_name p) = true ->
  with_suffix p (name_suffix (path_name p)) = Some p.
Proof.
  unfold with_suffix. set (nm := path_name p). intros Hv.
  unfold valid_name in Hv. apply andb_true_iff in Hv as [Hne Hsl].
  apply negb_true_iff in Hne, Hsl.
  assert (Hp : path_parent p ++ [nm] = p).
  { unfold nm, path_name, path_parent. destruct (last p) as [x|] eqn:Hl.
    - apply last_Some in Hl as [l' ->]. simpl. by rewrite removelast_last.
    - exfalso. unfold nm, path_name in Hne. rewrite Hl in Hne. discriminate. }
  unfold name_suffix. destruct (rfind_dot nm 0 None) as [i|] eqn:Hr.
  2:{ simpl. rewrite Hne. simpl. f_equal. rewrite string_append_empty_r. exact Hp. }
  destruct (rfind_dot_spec _ _ _ _ Hr) as [? | [_ Hg]]; [discriminate|].
  rewrite Nat.sub_0_r in Hg.
  destruct ((0 <? i)%nat && (i <? String.length nm - 1)%nat) eqn:Hb.
  2:{ simpl. rewrite Hne. simpl. f_equal. rewrite string_append_empty_r. exact Hp. }
  apply andb_true_iff in Hb as [Hi1 Hi2]. apply Nat.ltb_lt in Hi1, Hi2.
  set (old := substring i (String.length nm - i) nm).
  assert (Hlen : String.length old = (String.length nm - i)%nat)
    by (apply substring_length; lia).
  assert (Hcons : old = String "."%char (substring (S i) (String.length nm - i - 1) nm))
    by (unfold old; rewrite (substring_cons _ _ _ _ Hg) by lia; do 3 f_equal; lia).
  assert (Hrest : (substring (S i) (String.length nm - i - 1) nm =? "")%string = false).
  { destruct (substring (S i) (String.length nm - i - 1) nm) eqn:E; [|reflexivity].
    pose proof (substring_length nm (S i) (String.length nm - i - 1)) as HL.
    rewrite E in HL. simpl in HL. lia. }
  assert (Hchk : (negb (old =? "")%string && negb (String.prefix "." old)
                  || (old =? ".")%string) = false)
    by (rewrite Hcons; simpl; rewrite Hrest;
        destruct (substring (S i) _ nm); reflexivity).
  assert (Hold : (old =? "")%string = false) by (rewrite Hcons; reflexivity).
  assert (Hs : contains_char "/" old = false) by apply contains_substring, Hsl.
  rewrite Hs, Hchk, Hne, Hold.
  simpl. rewrite Hlen.
  replace (String.length nm - (String.length nm - i))%nat with i by lia.
  unfold old. rewrite substring_split by lia. f_equal. exact Hp.
Qed.

(** ** Filesystem steps of the quarantine branch *)

Lemma strip_prefix_app (pre rest : path) : strip_prefix pre (pre ++ rest) = Some rest.
Proof. induction pre as [|a pre IH]; simpl; [done|]. by rewrite String.eqb_refl. Qed.

Lemma path_name_app (l rel : path) : rel <> [] -> path_name (l ++ rel) = path_name rel.
Proof.
  intros Hrel. unfold path_name. destruct rel as [|x rel] using rev_ind; [done|].
  by rewrite app_assoc, !last_snoc.
Qed.

Lemma valid_name_nonempty (rel : path) : valid_name (path_name rel) = true -> rel <> [].
Proof. intros Hv ->. discriminate. Qed.

Lemma mkdir_parents_ok (p : path) (w : World) :
  (forall i, (1 <= i <= List.length p)%nat -> w_files w !! take i p = None) ->
  exists w', mkdir_parents p w = (inl tt, w') /\ w_files w' = w_files w /\
             w_trash w' = w_trash w /\
             (forall q, q ∈ w_dirs w' -> q ∈ w_dirs w \/ (List.length q <= List.length p)%nat).
Proof.
  intros Hanc. unfold mkdir_parents.
  replace (existsb _ _) with false.
  2:{ symmetry. apply not_true_iff_false. intros Hex.
      apply existsb_exists in Hex as (q & Hin & Hq).
      apply in_map_iff in Hin as (i & <- & Hi). apply in_seq in Hi.
      apply bool_decide_eq_true in Hq. rewrite Hanc in Hq by lia.
      by destruct Hq. }
  eexists. split; [reflexivity|]. simpl. split; [done|]. split; [done|].
  intros q Hq. apply elem_of_union in Hq as [Hq | Hq]; [|by left].
  right. apply elem_of_list_to_set, list_elem_of_In in Hq.
  apply in_map_iff in Hq as (i & <- & _). rewrite length_take. lia.
Qed.

Section QuarantineBranch.
Variable qdir : path.
Variable resolve : string -> path.
Variable r : PathRule.
Variables base rel : path.
Variable f : fnode.
Variable w : World.

Let dest : path := (qdir ++ [name r]) ++ rel.
Let dparent : path := (qdir ++ [name r]) ++ removelast rel.

Hypothesis Hres : resolve (rule_path r) = base.
Hypothesis Hval : valid_name (path_name rel) = true.
Hypothesis Hfile : w_files w !! (base ++ rel) = Some f.
Hypothesis Hanc : forall i, (1 <= i <= List.length dparent)%nat ->
                            w_files w !! take i dparent = None.
Hypothesis Hdest : dest ∉ w_dirs w.

Lemma quarantine_branch_moves :
  exists w', quarantine_branch qdir resolve (base ++ rel) r w = (inl tt, w') /\
             w_files w' = <[dest := f]> (delete (base ++ rel) (w_files w)) /\
             w_trash w' = w_trash w.
Proof.
  pose proof (valid_name_nonempty _ Hval) as Hrel.
  assert (Hlen : List.length dest = S (List.length dparent)).
  { unfold dest, dparent. rewrite !length_app.
    destruct rel as [|x rel'] using rev_ind; [done|].
    rewrite removelast_last, length_app. simpl. lia. }
  assert (Hq : forall q, take (List.length q) dparent = q ->
            (1 <= List.length q)%nat -> (List.length q <= List.length dparent)%nat ->
            w_files w !! q = None).
  { intros q Hq H1 H2. rewrite <- Hq. apply Hanc. lia. }
  assert (Hpre : forall pre k, dparent = pre ++ k -> forall w0, w_files w0 = w_files w ->
            forall i, (1 <= i <= List.length pre)%nat -> w_files w0 !! take i pre = None).
  { intros pre k Hpk w0 Hw0 i Hi. rewrite Hw0, <- (take_app_le pre k) by lia.
    rewrite <- Hpk. apply Hanc. rewrite Hpk, length_app. lia. }
  destruct (mkdir_parents_ok qdir w) as (w1 & Hm1 & Hf1 & Ht1 & Hd1).
  { apply (Hpre qdir ([name r] ++ removelast rel)); [|done].
    unfold dparent. by rewrite <- app_assoc. }
  destruct (mkdir_parents_ok (qdir ++ [name r]) w1) as (w2 & Hm2 & Hf2 & Ht2 & Hd2).
  { rewrite Hf1. apply (Hpre (qdir ++ [name r]) (removelast rel)); done. }
  assert (Hpp : path_parent dest = dparent).
  { unfold path_parent, dest, dparent. by apply removelast_app. }
  destruct (mkdir_parents_ok (path_parent dest) w2) as (w3 & Hm3 & Hf3 & Ht3 & Hd3).
  { rewrite Hf2, Hf1, Hpp. apply (Hpre dparent []); [by rewrite app_nil_r | done]. }
  assert (Hqd : quarantine_dest qdir resolve (base ++ rel) r = Some dest).
  { unfold quarantine_dest. unfold relative_to. rewrite Hres, strip_prefix_app.
    rewrite path_name_app by done.
    rewrite <- (path_name_app (qdir ++ [name r]) rel) by done.
    apply with_suffix_same. unfold dest. rewrite path_name_app by done. exact Hval. }
  assert (Hd : dest ∉ w_dirs w3).
  { assert (Hl1 : (List.length (qdir ++ [name r]) <= List.length dparent)%nat)
      by (unfold dparent; rewrite (length_app (qdir ++ [name r])); lia).
    assert (Hl0 : (List.length qdir <= List.length (qdir ++ [name r]))%nat)
      by (rewrite length_app; lia).
    intros Hin. rewrite Hpp in Hd3.
    destruct (Hd3 _ Hin) as [Hin2 | Hl]; [|lia].
    destruct (Hd2 _ Hin2) as [Hin1 | Hl]; [|lia].
    destruct (Hd1 _ Hin1) as [Hin0 | Hl]; [done | lia]. }
  unfold quarantine_branch, ensure_quarantine, io_bind, io_ret.
  rewrite Hm1. cbv beta iota zeta. rewrite Hm2. cbv beta iota zeta.
  rewrite Hqd. rewrite Hm3. cbv beta iota zeta.
  unfold shutil_move. rewrite bool_decide_eq_false_2 by exact Hd.
  unfold os_rename. rewrite Hf3, Hf2, Hf1, Hfile.
  rewrite bool_decide_eq_false_2 by exact Hd.
  eexists. split; [reflexivity|]. simpl. split; [reflexivity|].
  congruence.
Qed.
End QuarantineBranch.

(** ** Acting on a scan *)

Lemma io_try_stat_size (p : path) (w : World) :
  io_try (stat_size p) (fun _ => io_ret 0) w = (inl (size_in w p), w).
Proof.
  unfold io_try, size_in, stat_size, io_ret.
  destruct (w_files w !! p); [done|]. by case_bool_decide.
Qed.

Lemma act_loop_dry cfg has_trash qdir resolve stop r :
  dry_run cfg = true ->
  forall ps k d fr w, exists n : nat,
    act_loop cfg has_trash qdir resolve stop k ps r d fr w =
      (inl (d + Z.of_nat n, fr + sum_sizes w (firstn n ps)), w) /\
    (n <= List.length ps)%nat /\
    (forall j, (j < n)%nat -> stop (k + j)%nat = false) /\
    (n = List.length ps \/ stop (k + n)%nat = true \/ d + Z.of_nat n >= max_total_delete cfg).
Proof.
  intros Hdry ps. induction ps as [|p ps IH]; intros k d fr w.
  - exists 0%nat. split; [unfold sum_sizes, io_ret; simpl; rewrite !Z.add_0_r; reflexivity|].
    split; [lia|]. split; [intros; lia|]. by left.
  - simpl act_loop. destruct (stop k) eqn:Hs.
    { exists 0%nat. split; [unfold sum_sizes, io_ret; simpl; rewrite !Z.add_0_r; reflexivity|].
      split; [lia|]. split; [intros; lia|]. right; left. by rewrite Nat.add_0_r. }
    destruct (d >=? max_total_delete cfg) eqn:Hm.
    { exists 0%nat. split; [unfold sum_sizes, io_ret; simpl; rewrite !Z.add_0_r; reflexivity|].
      split; [lia|]. split; [intros; lia|].
      right; right. apply Z.geb_le in Hm. lia. }
    unfold io_bind at 1. rewrite io_try_stat_size.
    unfold io_bind, recycle_or_quarantine_or_delete, io_try. rewrite Hdry.
    unfold io_ret at 1. cbv beta iota.
    destruct (IH (S k) (d + 1) (fr + size_in w p) w) as (n & Heq & Hle & Hst & Hend).
    exists (S n). rewrite Heq. split.
    { simpl. f_equal. f_equal. f_equal; lia. }
    split; [simpl; lia|]. split.
    + intros [|j] Hj; [by rewrite Nat.add_0_r|].
      replace (k + S j)%nat with (S k + j)%nat by lia. apply Hst. lia.
    + replace (k + S n)%nat with (S k + n)%nat by lia.
      destruct Hend as [-> | [Hn | Hn]]; [left; done | right; left; done | right; right; lia].
Qed.

(** C1. Under [dry_run]: [act_on_files] leaves the whole world (files,
    directories, trash, log) as it was and reports every file it goes
    through as acted on, counting its size, until the list ends, the stop
    flag is seen or [max_total_delete] is reached; [cleanup_empty_dirs]
    changes nothing either. *)
Theorem dry_run_no_effect cfg has_trash qdir resolve stop :
  dry_run cfg = true ->
  (forall res w, exists n : nat,
     act_on_files cfg has_trash qdir resolve stop res w =
       (inl (Z.of_nat n, sum_sizes w (firstn n (files res))), w) /\
     (n <= List.length (files res))%nat /\
     (forall j, (j < n)%nat -> stop j = false) /\
     (n = List.length (files res) \/ stop n = true \/
      Z.of_nat n >= max_total_delete cfg)) /\
  (forall base w, cleanup_empty_dirs cfg stop base w = (inl tt, w)).
Proof.
  intros Hdry. split.
  - intros res w. unfold act_on_files.
    destruct (act_loop_dry cfg has_trash qdir resolve stop (sr_rule res) Hdry
                (files res) 0 0 0 w) as (n & Heq & Hle & Hst & Hend).
    exists n. rewrite Heq. simpl in *. split; [by rewrite Z.add_0_l|]. auto.
  - intros base w. unfold cleanup_empty_dirs. by rewrite Hdry.
Qed.

Lemma dry_run_no_effect_witness :
  act_on_files (cfgq true true) true qdir0 resolve0 no_stop (sr Quarantine) w0 =
    (inl (1, 3), w0) /\
  cleanup_empty_dirs (cfgq true true) no_stop base0 w0 = (inl tt, w0).
Proof.
  destruct (dry_run_no_effect (cfgq true true) true qdir0 resolve0 no_stop eq_refl)
    as [Hact Hclean].
  split; [|apply Hclean].
  destruct (Hact (sr Quarantine) w0) as (n & Heq & Hle & Hst & Hend).
  rewrite Heq. simpl in Hle. destruct n as [|[|n]]; [| reflexivity | lia].
  destruct Hend as [Hn | [Hn | Hn]]; discriminate.
Defined.

(** C4 (counterexample). The rule's base is the quarantine folder of rule
    ["R"] itself: the quarantine destination of [base/sub/a.txt] is the file's
    own path, the move is a rename onto itself, [act_on_files] reports the
    file as acted on and it is still at its original path. *)
Theorem quarantine_alias_stays :
  let '(out, w') := act_on_files (cfgq false true) false qdir0
                      (fun _ => base_alias) no_stop sr_alias w_alias in
  out = inl (1, 1) /\
  w_files w' !! (qdir0 ++ ["R"; "sub"; "a.txt"]) = Some {| f_bytes := [7]; f_mode := 256 |} /\
  w_files w' !! file_alias = Some {| f_bytes := [7]; f_mode := 256 |}.
Proof. vm_compute. auto. Qed.

(** C4 (amended). A file [base/rel] (e.g. [rel = sub/a.txt]) acted on with
    effective action quarantine under rule [r], not in dry run and with
    quarantine enabled, when the quarantine directories can be created (no
    regular file on the way to [quarantineRoot/name/rel]) and no directory
    sits at the destination: [act_on_files] reports it acted on, the file
    (same contents and mode) is at [quarantineRoot/name/rel], and, unless
    [base] is [quarantineRoot/name] itself (so the destination is the
    original path), nothing is left at [base/rel]. *)
Theorem quarantine_round_trip cfg has_trash qdir resolve stop r base rel f w ts :
  dry_run cfg = false -> quarantine_enabled cfg = true ->
  resolve_action cfg r = Quarantine ->
  resolve (rule_path r) = base ->
  w_files w !! (base ++ rel) = Some f ->
  valid_name (path_name rel) = true ->
  (forall i, (1 <= i <= List.length ((qdir ++ [name r]) ++ removelast rel))%nat ->
     w_files w !! take i ((qdir ++ [name r]) ++ removelast rel) = None) ->
  (qdir ++ [name r]) ++ rel ∉ w_dirs w ->
  stop 0%nat = false -> 0 < max_total_delete cfg ->
  exists w',
    act_on_files cfg has_trash qdir resolve stop
      {| sr_rule := r; files := [base ++ rel]; total_size := ts |} w =
      (inl (1, Z.of_nat (List.length (f_bytes f))), w') /\
    w_files w' !! ((qdir ++ [name r]) ++ rel) = Some f /\
    (base <> qdir ++ [name r] -> w_files w' !! (base ++ rel) = None).
Proof.
  intros Hdry Hqen Hact Hres Hfile Hval Hanc Hdest Hstop Hmax.
  destruct (quarantine_branch_moves qdir resolve r base rel f w Hres Hval Hfile Hanc Hdest)
    as (w' & Hq & Hf' & _).
  exists w'. unfold act_on_files. simpl act_loop.
  rewrite Hstop. replace (0 >=? max_total_delete cfg) with false
    by (symmetry; rewrite Z.geb_leb; apply Z.leb_gt; lia).
  unfold io_bind at 1. rewrite io_try_stat_size.
  assert (Hsz : size_in w (base ++ rel) = Z.of_nat (List.length (f_bytes f)))
    by (unfold size_in, stat_size; by rewrite Hfile).
  unfold recycle_or_quarantine_or_delete, io_bind, io_try. rewrite Hdry, Hact, Hqen.
  simpl. unfold io_bind. rewrite Hq. simpl. rewrite Hsz. split; [reflexivity|].
  rewrite Hf'. split.
  - apply lookup_insert_eq.
  - intros Hne. rewrite lookup_insert_ne.
    + apply lookup_delete_eq.
    + intros Heq. apply Hne. apply app_inv_tail in Heq. by symmetry.
Qed.

Lemma quarantine_round_trip_witness :
  exists w',
    act_on_files (cfgq false true) false qdir0 resolve0 no_stop
      {| sr_rule := ruleR Quarantine; files := [base0 ++ ["sub"; "a.txt"]]; total_size := 3 |} w0 =
      (inl (1, Z.of_nat (List.length (f_bytes {| f_bytes := [1;2;3]; f_mode := 256 |}))), w') /\
    w_files w' !! ((qdir0 ++ [name (ruleR Quarantine)]) ++ ["sub"; "a.txt"]) =
      Some {| f_bytes := [1;2;3]; f_mode := 256 |} /\
    (base0 <> qdir0 ++ [name (ruleR Quarantine)] ->
     w_files w' !! (base0 ++ ["sub"; "a.txt"]) = None).
Proof.
  apply quarantine_round_trip; try reflexivity.
  - intros i Hi. simpl in Hi.
    destruct i as [|[|[|[|[|[|i]]]]]]; try lia; vm_compute; reflexivity.
  - apply (bool_decide_eq_true_1 _). vm_compute. reflexivity.
Defined.

(** C2 (failing input). No trash facility, quarantine enabled, not in dry
    run. A rule whose action is recycle, and likewise a delete rule under
    [hard_recycle_only] (whose setting is described as disabling
    quarantine), has its file [/tmp/x/sub/a.txt] moved to
    [quarantineRoot/R/sub/a.txt] instead of being deleted. *)
Theorem recycle_without_trash_quarantines :
  (let '(out, w') := act_on_files (cfgq false true) false qdir0 resolve0 no_stop
                       (sr Recycle) w0 in
   out = inl (1, 3) /\
   w_files w' !! (qdir0 ++ ["R"; "sub"; "a.txt"]) = Some {| f_bytes := [1;2;3]; f_mode := 256 |} /\
   w_files w' !! file_a = None) /\
  (let '(out, w') := act_on_files (cfgh false) false qdir0 resolve0 no_stop
                       (sr Delete) w0 in
   out = inl (1, 3) /\
   w_files w' !! (qdir0 ++ ["R"; "sub"; "a.txt"]) = Some {| f_bytes := [1;2;3]; f_mode := 256 |} /\
   w_files w' !! file_a = None).
Proof. split; vm_compute; auto. Qed.

(** ** Scheduler *)

Lemma mk_task_time (nm act tm : string) : mk_task nm act tm !! "time" = Some tm.
Proof. unfold mk_task. by rewrite !lookup_insert_ne, lookup_singleton_eq. Qed.

Lemma tick_app (ts1 ts2 : list task) (now : Z) :
  tick (ts1 ++ ts2) now = tick ts1 now ++ tick ts2 now.
Proof. unfold tick. apply flat_map_app. Qed.

(** C5 (counterexample). Adding an entry with time ["25:99"] to an empty
    schedule is not rejected: the entry is in the task list and in the saved
    schedule document. *)
Theorem add_malformed_time_accepted :
  s_tasks (add_schedule "" "clean" "25:99" sched0) = [mk_task "Task 1" "clean" "25:99"] /\
  s_doc (add_schedule "" "clean" "25:99" sched0) = [mk_task "Task 1" "clean" "25:99"] /\
  parse_hhmm "25:99" = None.
Proof. vm_compute. auto. Qed.

(** C5 (amended). [_add_schedule] does not check the time: the entry (with
    the stripped fields and the default name) is appended to the task list,
    and the schedule document is rewritten with the new list; no error is
    shown, the only messages being the toast ["Scheduled: <name>"] and the
    log line ["Scheduled: <name> @ <time> → <action>"]; an entry whose
    time does not parse never fires and leaves every tick of the other
    entries as it was. *)
Theorem add_schedule_no_validation s_name s_action s_time st :
  s_tasks (add_schedule s_name s_action s_time st) =
    s_tasks st ++ [mk_task (default_name s_name st) (py_strip s_action) (py_strip s_time)] /\
  s_doc (add_schedule s_name s_action s_time st) =
    s_tasks (add_schedule s_name s_action s_time st) /\
  s_toast (add_schedule s_name s_action s_time st) =
    ("Scheduled: " ++ default_name s_name st)%string /\
  s_log (add_schedule s_name s_action s_time st) =
    s_log st ++ ["Scheduled: " ++ default_name s_name st ++ " @ " ++ py_strip s_time ++
                 " → " ++ py_strip s_action]%string /\
  (parse_hhmm (py_strip s_time) = None -> forall now,
     tick (s_tasks (add_schedule s_name s_action s_time st)) now = tick (s_tasks st) now).
Proof.
  split_and!; [reflexivity | reflexivity | reflexivity | reflexivity |].
  intros Hbad now. simpl. rewrite tick_app.
  unfold tick at 2. simpl. unfold task_time. rewrite mk_task_time. simpl. rewrite Hbad.
  apply app_nil_r.
Qed.

Lemma add_schedule_no_validation_witness :
  s_toast (add_schedule "" "clean" "25:99" (add_schedule "n" "clean" "02:30" sched0)) =
    "Scheduled: Task 2" /\
  tick (s_tasks (add_schedule "" "clean" "25:99" (add_schedule "n" "clean" "02:30" sched0)))
       (target_of 2 30) =
  tick (s_tasks (add_schedule "n" "clean" "02:30" sched0)) (target_of 2 30).
Proof.
  destruct (add_schedule_no_validation "" "clean" "25:99"
              (add_schedule "n" "clean" "02:30" sched0)) as (_ & _ & Ht & _ & Hk).
  split.
  - rewrite Ht. vm_compute. reflexivity.
  - apply Hk. vm_compute. reflexivity.
Defined.

(** C6 (counterexample). Ticks 15 s apart from 02:30:00: both fall in the
    30 s window of the entry [clean @ 02:30], and each one runs [clean]. *)
Theorem tick_twice_in_window :
  run_ticks [clean_0230] (target_of 2 30) 2 = [CClean; CClean].
Proof. vm_compute. reflexivity. Qed.

(** C6 (amended). A tick runs the action of an entry with time [hh:mm]
    exactly when [target <= now < target + 30 s] (same day); there is no
    record of a past firing, so every tick inside the window runs it.
    E.g. [clean @ 02:30] runs at 02:30:10 and not at 02:31:00. *)
Theorem tick_window :
  (tick [clean_0230] (target_of 2 30 + 10 * usec) = [CClean] /\
   tick [clean_0230] (target_of 2 31) = []) /\
  (forall t hh mm now, task_time t = Some (hh, mm) ->
     tick [t] now =
       if bool_decide (target_of hh mm <= now < target_of hh mm + 30 * usec)
       then [run_action (default "" (t !! "action"))] else []).
Proof.
  split; [vm_compute; auto|].
  intros t hh mm now Ht. unfold tick. simpl. rewrite Ht. unfold in_window.
  case_bool_decide as Hw.
  - replace ((target_of hh mm <=? now) && (now - target_of hh mm <? 30 * usec)) with true.
    + reflexivity.
    + symmetry. apply andb_true_iff. rewrite Z.leb_le, Z.ltb_lt. lia.
  - replace ((target_of hh mm <=? now) && (now - target_of hh mm <? 30 * usec)) with false.
    + reflexivity.
    + symmetry. apply not_true_iff_false. rewrite andb_true_iff, Z.leb_le, Z.ltb_lt. lia.
Qed.

Lemma tick_window_witness :
  tick [clean_0230] (target_of 2 30 + 10 * usec) = [CClean].
Proof.
  rewrite (proj2 tick_window clean_0230 2 30 (target_of 2 30 + 10 * usec)).
  - vm_compute. reflexivity.
  - vm_compute. reflexivity.
Defined.

(** ** Stop and pause *)

Lemma wait_if_paused_exits (fuel : nat) (obs : nat -> Flags) (j k : nat) :
  (j <= k)%nat -> (k - j < fuel)%nat -> stop_set (obs k) = true ->
  exists j', (j <= j' <= k)%nat /\ wait_if_paused fuel obs j = Some j'.
Proof.
  revert j. induction fuel as [|fuel IH]; intros j Hjk Hf Hs; [lia|].
  simpl. destruct (pause_set (obs j) && negb (stop_set (obs j))) eqn:Hc.
  - destruct (decide (j = k)) as [->|Hne].
    + rewrite Hs in Hc. rewrite andb_false_r in Hc. discriminate.
    + destruct (IH (S j)) as (j' & Hj' & Heq); [lia | lia | exact Hs |].
      exists j'. split; [lia | exact Heq].
  - exists j. split; [lia | reflexivity].
Qed.

(** C10. [stop()] sets the stop flag and clears the pause flag, and a later
    [toggle_pause] leaves the stop flag set; the polling loop of
    [wait_if_paused] leaves at the latest at the first test where the stop
    flag is set, whatever the flags were before, and at its first test when
    that test reads the flags just after [stop()]. *)
Theorem stop_releases_pause :
  (forall fl, stop_set (engine_stop fl) = true /\ pause_set (engine_stop fl) = false) /\
  (forall v fl, stop_set (toggle_pause v fl) = stop_set fl) /\
  (forall obs k, stop_set (obs k) = true ->
     exists j, (j <= k)%nat /\ wait_if_paused (S k) obs 0 = Some j) /\
  (forall obs fl, obs 0%nat = engine_stop fl -> wait_if_paused 1 obs 0 = Some 0%nat).
Proof.
  split; [done|]. split; [done|]. split.
  - intros obs k Hs. destruct (wait_if_paused_exits (S k) obs 0 k) as (j & Hj & Heq);
      [lia | lia | exact Hs |]. exists j. split; [lia | exact Heq].
  - intros obs fl H0. simpl. rewrite H0. reflexivity.
Qed.

Lemma stop_releases_pause_witness :
  (exists j, (j <= 3)%nat /\
     wait_if_paused 4 (fun i => if (i <? 3)%nat then {| stop_set := false; pause_set := true |}
                                else engine_stop {| stop_set := false; pause_set := true |}) 0
     = Some j) /\
  wait_if_paused 1 (fun _ => engine_stop {| stop_set := false; pause_set := true |}) 0 = Some 0%nat.
Proof.
  destruct stop_releases_pause as (_ & _ & H1 & H2). split.
  - apply H1. reflexivity.
  - apply (H2 _ {| stop_set := false; pause_set := true |}). reflexivity.
Defined.

(** * Further properties of the code *)
Lemma contains_char_In (c : ascii) (s : string) :
  contains_char c s = false <-> ~ In c (list_ascii_of_string s).
Proof.
  induction s as [|d s IH]; simpl; [tauto|].
  rewrite orb_false_iff, IH. destruct (Ascii.eqb_spec c d) as [->|Hne].
  - split; [intros [H _]; discriminate | intros H; exfalso; apply H; auto].
  - split; [intros [_ H] [Hd|Hd]; [congruence | tauto] | intros H; split; [done|]; tauto].
Qed.

Lemma drop_spaces_In sp (c : ascii) l : sp c = false -> In c l -> In c (drop_spaces sp l).
Proof.
  intros Hc. induction l as [|d l IH]; simpl; [done|].
  intros [->|Hin]; [rewrite Hc; left; done|].
  destruct (sp d); [auto | right; done].
Qed.

Lemma strip_list_In sp (c : ascii) l : sp c = false -> In c l -> In c (strip_list sp l).
Proof.
  intros Hc Hin. unfold strip_list.
  assert (H1 : In c (drop_spaces sp (rev (drop_spaces sp l)))).
  { apply drop_spaces_In; [done|]. apply (proj1 (in_rev _ _)). by apply drop_spaces_In. }
  by apply (proj1 (in_rev _ _)) in H1.
Qed.

Lemma parse_digits_no_colon l acc b z : parse_digits l acc b = Some z -> ~ In ":"%char l.
Proof.
  revert acc b. induction l as [|c l IH]; intros acc b H; simpl; [tauto|].
  intros [->|Hin].
  - simpl in H. discriminate.
  - simpl in H. destruct (is_digit c); [eapply IH; eauto|].
    destruct (Ascii.eqb c "_" && b); [eapply IH; eauto | discriminate].
Qed.

Lemma py_int_no_colon s z : py_int s = Some z -> contains_char ":" s = false.
Proof.
  intros H. apply contains_char_In. intros Hin.
  apply (strip_list_In is_int_space) in Hin; [|reflexivity].
  unfold py_int in H. destruct (strip_list is_int_space _) as [|c l]; [destruct Hin|].
  destruct c as [[] [] [] [] [] [] [] []];
    first [ apply parse_digits_no_colon in H; contradiction
          | destruct Hin as [Hc|Hin]; [discriminate|];
            first [ apply parse_digits_no_colon in H; contradiction
                  | destruct (parse_digits l 0 false) eqn:E; [|discriminate];
                    apply parse_digits_no_colon in E; contradiction ] ].
Qed.

Lemma index_colon (s : string) (i : nat) :
  index 0 ":" s = Some i ->
  exists a b, s = (a ++ String ":" b)%string /\ String.length a = i /\
              contains_char ":" a = false.
Proof.
  revert i. induction s as [|c s IH]; intros i H; [discriminate|].
  cbn [index prefix] in H. destruct (ascii_dec ":" c) as [<-|Hne].
  - destruct s; injection H as <-; eexists "", _; eauto.
  - destruct (index 0 ":" s) as [j|] eqn:E; [|discriminate]. injection H as <-.
    destruct (IH j eq_refl) as (a & b & -> & Hl & Hc).
    exists (String c a), b. split; [reflexivity|]. split; [simpl; lia|].
    cbn [contains_char]. rewrite Hc, orb_false_r.
    destruct (Ascii.eqb_spec ":" c); [congruence | reflexivity].
Qed.

Lemma substring_app_0 (a t : string) : substring 0 (String.length a) (a ++ t) = a.
Proof.
  induction a as [|c a IH]; simpl; [by destruct t|].
  transitivity (String c (substring 0 (String.length a) (a ++ t))); [reflexivity|]. by rewrite IH.
Qed.

Lemma substring_app_skip (a t : string) (n m : nat) :
  substring (String.length a + n) m (a ++ t) = substring n m t.
Proof. induction a as [|c a IH]; simpl; [done|]. apply IH. Qed.

Lemma length_app_string (a t : string) :
  String.length (a ++ t) = (String.length a + String.length t)%nat.
Proof. induction a as [|c a IH]; simpl; [done|]. by rewrite IH. Qed.

Lemma append_String (c : ascii) (a t : string) :
  (String c a ++ t)%string = String c (a ++ t).
Proof. reflexivity. Qed.

Lemma split_colon_app (a b : string) :
  contains_char ":" a = false ->
  split_colon (a ++ String ":" b) = Some (a, b).
Proof.
  intros Ha. unfold split_colon.
  assert (Hi : index 0 ":" (a ++ String ":" b) = Some (String.length a)).
  { clear -Ha. induction a as [|c a IH].
    - by destruct b.
    - cbn [contains_char] in Ha. apply orb_false_iff in Ha as [H1 H2].
      rewrite append_String. cbn [index prefix].
      destruct (ascii_dec ":" c) as [<-|]; [discriminate|]. by rewrite IH. }
  rewrite Hi, substring_app_0. f_equal. f_equal.
  rewrite length_app_string. simpl.
  replace (S (String.length a)) with (String.length a + 1)%nat by lia.
  rewrite substring_app_skip. simpl.
  replace (String.length a + S (String.length b) - (String.length a + 1))%nat
    with (String.length b) by lia.
  apply substring_full.
Qed.

Lemma parse_hhmm_table :
  forallb (fun hh => forallb (fun mm =>
      bool_decide (parse_hhmm (pad2 hh ++ ":" ++ pad2 mm) = Some (hh, mm)) &&
      bool_decide (parse_hhmm (pretty hh ++ ":" ++ pretty mm) = Some (hh, mm)))
    (map Z.of_nat (seq 0 60))) (map Z.of_nat (seq 0 24)) = true.
Proof. vm_compute. reflexivity. Qed.

(** The [time] field of a schedule entry: [parse_hhmm] accepts every
    [HH:MM] and [H:M] of a time of day, and accepts a string only if it has
    exactly one colon and denotes an hour in 0..23 and a minute in 0..59;
    an entry without [time] is taken as [00:00]. *)
Theorem parse_hhmm_accepts s hh mm :
  (0 <= hh <= 23 -> 0 <= mm <= 59 ->
   parse_hhmm (pad2 hh ++ ":" ++ pad2 mm) = Some (hh, mm) /\
   parse_hhmm (pretty hh ++ ":" ++ pretty mm) = Some (hh, mm)) /\
  (parse_hhmm s = Some (hh, mm) ->
   (0 <= hh <= 23 /\ 0 <= mm <= 59) /\
   exists a b, s = (a ++ ":" ++ b)%string /\ contains_char ":" a = false /\
               contains_char ":" b = false) /\
  (forall t : task, t !! "time" = None -> task_time t = Some (0, 0)).
Proof.
  split; [|split].
  - intros Hh Hm. pose proof parse_hhmm_table as T.
    rewrite forallb_forall in T.
    specialize (T hh). rewrite forallb_forall in T.
    assert (Hh' : In hh (map Z.of_nat (seq 0 24))).
    { apply in_map_iff. exists (Z.to_nat hh). split; [lia|]. apply in_seq. lia. }
    assert (Hm' : In mm (map Z.of_nat (seq 0 60))).
    { apply in_map_iff. exists (Z.to_nat mm). split; [lia|]. apply in_seq. lia. }
    specialize (T Hh' mm Hm'). apply andb_true_iff in T as [T1 T2].
    apply bool_decide_eq_true in T1, T2. auto.
  - intros H. unfold parse_hhmm in H.
    destruct (split_colon s) as [[a b]|] eqn:Hs; [|discriminate].
    destruct (py_int a) as [h|] eqn:Ha, (py_int b) as [m|] eqn:Hb; try discriminate.
    destruct ((0 <=? h) && (h <=? 23) && (0 <=? m) && (m <=? 59)) eqn:Hr; [|discriminate].
    injection H as <- <-. repeat rewrite andb_true_iff in Hr. rewrite !Z.leb_le in Hr.
    split; [lia|].
    pose proof Hs as Hs'. unfold split_colon in Hs'.
    destruct (index 0 ":" s) as [i|] eqn:Hi; [|discriminate].
    destruct (index_colon s i Hi) as (a' & b' & -> & Hl & Hc).
    rewrite split_colon_app in Hs by exact Hc.
    injection Hs as <- <-.
    exists a', b'. split; [reflexivity|]. split; [exact Hc|]. eapply py_int_no_colon; eauto.
  - intros t Ht. unfold task_time. rewrite Ht. reflexivity.
Qed.

Lemma parse_hhmm_accepts_witness :
  (parse_hhmm (pad2 2 ++ ":" ++ pad2 30) = Some (2, 30) /\
   parse_hhmm (pretty 2 ++ ":" ++ pretty 30) = Some (2, 30)) /\
  ((0 <= 2 <= 23 /\ 0 <= 30 <= 59) /\
   exists a b, " 2 : 30"%string = (a ++ ":" ++ b)%string /\ contains_char ":" a = false /\
               contains_char ":" b = false) /\
  task_time (<["action" := "scan"]> ∅) = Some (0, 0).
Proof.
  destruct (parse_hhmm_accepts " 2 : 30" 2 30) as (H1 & H2 & H3).
  split; [apply H1; lia|]. split; [apply H2; reflexivity|]. apply H3. reflexivity.
Defined.

(** Removing the last entry right after [_add_schedule] gives back the
    task list as it was, and the schedule document is rewritten to that
    list. *)
Theorem remove_after_add s_name s_action s_time st :
  s_tasks (sched_remove (Z.of_nat (List.length (s_tasks st)))
             (add_schedule s_name s_action s_time st)) = s_tasks st /\
  s_doc (sched_remove (Z.of_nat (List.length (s_tasks st)))
           (add_schedule s_name s_action s_time st)) = s_tasks st.
Proof.
  unfold sched_remove. simpl.
  rewrite length_app. simpl.
  replace ((0 <=? Z.of_nat (List.length (s_tasks st))) &&
           (Z.of_nat (List.length (s_tasks st)) <? Z.of_nat (List.length (s_tasks st) + 1)))
    with true by (symmetry; apply andb_true_iff; rewrite Z.leb_le, Z.ltb_lt; lia).
  simpl. rewrite Nat2Z.id.
  pose proof (delete_middle (s_tasks st) [] (mk_task (default_name s_name st)
                 (py_strip s_action) (py_strip s_time))) as D.
  rewrite app_nil_r in D. auto.
Qed.

Lemma round_half_even_top (a d : Z) :
  0 < d -> 20480 * d - d <= 2 * a < 20480 * d -> round_half_even a d = 10240.
Proof.
  intros Hd Ha. unfold round_half_even.
  assert (Hq : a / d = 10239).
  { symmetry. apply Z.div_unique with (a - 10239 * d); [left; lia | lia]. }
  assert (Hr : a mod d = a - 10239 * d).
  { rewrite Z.mod_eq by lia. rewrite Hq. lia. }
  rewrite Hq, Hr.
  destruct (2 * (a - 10239 * d) <? d) eqn:E1; [apply Z.ltb_lt in E1; lia|].
  destruct (d <? 2 * (a - 10239 * d)) eqn:E2; [reflexivity|]. reflexivity.
Qed.

Lemma human_bytes_unit_k (k : nat) (n : Z) :
  (1 <= k <= 4)%nat -> 1024 ^ Z.of_nat k <= n < 1024 ^ Z.of_nat (S k) ->
  human_bytes n =
    (fmt_1f n (1024 ^ Z.of_nat k) ++ " " ++ nth k ["B"; "KB"; "MB"; "GB"; "TB"] "")%string.
Proof.
  intros Hk Hn.
  destruct k as [|[|[|[|[|k]]]]]; try lia; unfold human_bytes; cbn [human_bytes_go nth];
    cbn [Z.of_nat Pos.of_succ_nat Pos.succ] in *;
    repeat match goal with
    | |- context [?a <? ?b] =>
        first [ replace (a <? b) with false by (symmetry; apply Z.ltb_ge; lia)
              | replace (a <? b) with true by (symmetry; apply Z.ltb_lt; lia) ]
    end; reflexivity.
Qed.

(** [human_bytes]: a number of bytes below 1024 is printed exactly with
    unit [B]; from 1 KB to below 1 PB the count is divided by the largest
    power [1024^k] not above it and printed with one decimal and the unit
    of that power; just below each power of 1024 from 1 MB to 1 PB (within
    one twentieth of the smaller unit) the text reads [1024.0] of the smaller
    unit, not [1.0] of the larger one. *)
Theorem human_bytes_units :
  (forall n, n < 1024 -> human_bytes n = (pretty n ++ " B")%string) /\
  (forall k n, (1 <= k <= 4)%nat -> 1024 ^ Z.of_nat k <= n < 1024 ^ Z.of_nat (S k) ->
     human_bytes n =
       (fmt_1f n (1024 ^ Z.of_nat k) ++ " " ++ nth k ["B"; "KB"; "MB"; "GB"; "TB"] "")%string) /\
  (forall k n, (1 <= k <= 4)%nat ->
     20 * 1024 ^ Z.of_nat (S k) - 1024 ^ Z.of_nat k <= 20 * n < 20 * 1024 ^ Z.of_nat (S k) ->
     human_bytes n = ("1024.0 " ++ nth k ["B"; "KB"; "MB"; "GB"; "TB"] "")%string).
Proof.
  split; [|split].
  - intros n Hn. unfold human_bytes. cbn [human_bytes_go].
    replace (n <? 1024 ^ Z.of_nat 1) with true by (symmetry; apply Z.ltb_lt; simpl; lia).
    reflexivity.
  - exact human_bytes_unit_k.
  - intros k n Hk Hn.
    assert (Hp : 0 < 1024 ^ Z.of_nat k) by (apply Z.pow_pos_nonneg; lia).
    assert (HS : 1024 ^ Z.of_nat (S k) = 1024 * 1024 ^ Z.of_nat k)
      by (rewrite Nat2Z.inj_succ, Z.pow_succ_r by lia; lia).
    rewrite (human_bytes_unit_k k n) by (auto; lia).
    unfold fmt_1f. rewrite round_half_even_top by lia. reflexivity.
Qed.

Lemma human_bytes_units_witness :
  human_bytes 1023 = "1023 B" /\ human_bytes 1536 = "1.5 KB" /\
  human_bytes 1048575 = "1024.0 KB".
Proof.
  destruct human_bytes_units as (H1 & H2 & H3). split; [|split].
  - rewrite H1 by lia. reflexivity.
  - rewrite (H2 1%nat) by (simpl; lia). vm_compute. reflexivity.
  - rewrite (H3 1%nat) by (simpl; lia). reflexivity.
Defined.

Lemma size_in_nonneg (w : World) (p : path) : 0 <= size_in w p.
Proof.
  unfold size_in, stat_size. destruct (w_files w !! p); [lia|]. case_bool_decide; lia.
Qed.

Lemma rqd_returns cfg has_trash qdir resolve p r w :
  exists b w', recycle_or_quarantine_or_delete cfg has_trash qdir resolve p r w = (inl b, w').
Proof.
  unfold recycle_or_quarantine_or_delete, io_try.
  destruct (_ w) as [[b|e] w1]; [by eauto|].
  unfold report_failure, io_bind, io_log, io_ret. eauto.
Qed.

Lemma act_loop_bounds cfg has_trash qdir resolve stop r :
  forall ps k d fr w, exists d' fr' w',
    act_loop cfg has_trash qdir resolve stop k ps r d fr w = (inl (d', fr'), w') /\
    d <= d' <= d + Z.of_nat (List.length ps) /\ fr <= fr' /\
    (d <= Z.max 0 (max_total_delete cfg) -> d' <= Z.max 0 (max_total_delete cfg)).
Proof.
  induction ps as [|p ps IH]; intros k d fr w; simpl.
  - exists d, fr, w. split; [reflexivity|]. lia.
  - destruct (stop k).
    { exists d, fr, w. split; [reflexivity|]. lia. }
    destruct (d >=? max_total_delete cfg) eqn:Hm.
    { exists d, fr, w. split; [reflexivity|]. lia. }
    rewrite Z.geb_leb in Hm. apply Z.leb_gt in Hm.
    unfold io_bind at 1. rewrite io_try_stat_size.
    unfold io_bind.
    destruct (rqd_returns cfg has_trash qdir resolve p r w) as (b & w1 & Hb). rewrite Hb.
    pose proof (size_in_nonneg w p).
    destruct b.
    + destruct (IH (S k) (d + 1) (fr + size_in w p) w1) as (d' & fr' & w' & Heq & H1 & H2 & H3).
      exists d', fr', w'. split; [exact Heq|]. lia.
    + destruct (IH (S k) d fr w1) as (d' & fr' & w' & Heq & H1 & H2 & H3).
      exists d', fr', w'. split; [exact Heq|]. lia.
Qed.

(** [act_on_files] never raises: every failure of a file is caught and
    logged. The count of acted-on files is at most the number of listed
    files and at most [max(0, max_total_delete)], the freed bytes are not
    negative, and with [max_total_delete <= 0] nothing is done at all. *)
Theorem act_on_files_bounds cfg has_trash qdir resolve stop res w :
  exists d fr w',
    act_on_files cfg has_trash qdir resolve stop res w = (inl (d, fr), w') /\
    0 <= d <= Z.of_nat (List.length (files res)) /\
    d <= Z.max 0 (max_total_delete cfg) /\ 0 <= fr /\
    (max_total_delete cfg <= 0 -> d = 0 /\ fr = 0 /\ w' = w).
Proof.
  destruct (act_loop_bounds cfg has_trash qdir resolve stop (sr_rule res) (files res) 0 0 0 w)
    as (d & fr & w' & Heq & H1 & H2 & H3).
  exists d, fr, w'. unfold act_on_files. rewrite Heq.
  split; [reflexivity|]. split; [lia|]. split; [lia|]. split; [lia|].
  intros Hm. unfold act_on_files in Heq.
  destruct (files res) as [|p ps]; simpl in Heq.
  - injection Heq as <- <- <-. auto.
  - destruct (stop 0%nat); [injection Heq as <- <- <-; auto|].
    replace (0 >=? max_total_delete cfg) with true in Heq
      by (symmetry; rewrite Z.geb_leb; apply Z.leb_le; lia).
    injection Heq as <- <- <-. auto.
Qed.

Lemma act_on_files_bounds_witness :
  exists d fr w',
    act_on_files (cfgq false true) true qdir0 resolve0 no_stop (sr Delete) w0 = (inl (d, fr), w') /\
    0 <= d <= Z.of_nat (List.length (files (sr Delete))) /\
    d <= Z.max 0 (max_total_delete (cfgq false true)) /\ 0 <= fr /\
    (max_total_delete (cfgq false true) <= 0 -> d = 0 /\ fr = 0 /\ w' = w0).
Proof. exact (act_on_files_bounds (cfgq false true) true qdir0 resolve0 no_stop (sr Delete) w0). Defined.

(** A listed file that no longer exists when [act_on_files] reaches it,
    under an effective [delete] action and not in dry run, is counted as
    one deleted file with 0 bytes freed ([unlink(missing_ok=True)]), and the
    world is unchanged. *)
Theorem vanished_file_counted cfg has_trash qdir resolve stop r p ts w :
  dry_run cfg = false -> resolve_action cfg r = Delete ->
  w_files w !! p = None -> p ∉ w_dirs w ->
  stop 0%nat = false -> 0 < max_total_delete cfg ->
  act_on_files cfg has_trash qdir resolve stop
    {| sr_rule := r; files := [p]; total_size := ts |} w = (inl (1, 0), w).
Proof.
  intros Hdry Hact Hf Hd Hs Hm. unfold act_on_files. simpl act_loop.
  rewrite Hs. replace (0 >=? max_total_delete cfg) with false
    by (symmetry; rewrite Z.geb_leb; apply Z.leb_gt; lia).
  unfold io_bind at 1. rewrite io_try_stat_size.
  assert (Hsz : size_in w p = 0).
  { unfold size_in, stat_size. rewrite Hf. by rewrite bool_decide_eq_false_2. }
  rewrite Hsz.
  unfold recycle_or_quarantine_or_delete. rewrite Hdry, Hact.
  unfold delete_branch, chmod_add_write, unlink_missing_ok, io_try, io_bind, io_ret.
  simpl. rewrite Hf, bool_decide_eq_false_2 by exact Hd. simpl.
  rewrite Hf, bool_decide_eq_false_2 by exact Hd. reflexivity.
Qed.

Lemma vanished_file_counted_witness :
  act_on_files (cfgq false true) true qdir0 resolve0 no_stop
    {| sr_rule := ruleR Delete; files := [base0 ++ ["gone.tmp"]]; total_size := 0 |} w0 =
  (inl (1, 0), w0).
Proof.
  apply vanished_file_counted; [reflexivity | reflexivity | vm_compute; reflexivity | |
                                reflexivity | reflexivity].
  apply (bool_decide_eq_false_1 _). vm_compute. reflexivity.
Defined.

(** With [hard_recycle_only], a rule's own action plays no part in what
    happens to a file; with a trash facility the file is moved to the
    trash, whatever the action of its rule. *)
Theorem hard_recycle_only_ignores_action cfg has_trash qdir resolve p r1 r2 w :
  hard_recycle_only cfg = true -> name r1 = name r2 -> rule_path r1 = rule_path r2 ->
  recycle_or_quarantine_or_delete cfg has_trash qdir resolve p r1 w =
  recycle_or_quarantine_or_delete cfg has_trash qdir resolve p r2 w /\
  (dry_run cfg = false -> forall f, w_files w !! p = Some f ->
   recycle_or_quarantine_or_delete cfg true qdir resolve p r1 w =
   (inl true, {| w_files := delete p (w_files w); w_dirs := w_dirs w;
                 w_trash := w_trash w ++ [(p, f)]; w_log := w_log w |})).
Proof.
  intros Hh Hn Hp. split.
  - unfold recycle_or_quarantine_or_delete, resolve_action. rewrite Hh.
    unfold quarantine_branch, quarantine_dest. rewrite Hn, Hp. reflexivity.
  - intros Hdry f Hf. unfold recycle_or_quarantine_or_delete, resolve_action.
    rewrite Hdry, Hh. simpl.
    unfold io_try, io_bind, send2trash, io_ret. rewrite Hf. reflexivity.
Qed.

Lemma hard_recycle_only_ignores_action_witness :
  recycle_or_quarantine_or_delete (cfgh false) false qdir0 resolve0 file_a (ruleR Delete) w0 =
  recycle_or_quarantine_or_delete (cfgh false) false qdir0 resolve0 file_a (ruleR Quarantine) w0 /\
  (dry_run (cfgh false) = false -> forall f, w_files w0 !! file_a = Some f ->
   recycle_or_quarantine_or_delete (cfgh false) true qdir0 resolve0 file_a (ruleR Delete) w0 =
   (inl true, {| w_files := delete file_a (w_files w0); w_dirs := w_dirs w0;
                 w_trash := w_trash w0 ++ [(file_a, f)]; w_log := w_log w0 |})).
Proof. apply hard_recycle_only_ignores_action; reflexivity. Defined.

Lemma cleanup_loop_frame stop :
  forall ds k w, exists w',
    cleanup_loop stop k ds w = (inl tt, w') /\
    w_files w' = w_files w /\ w_trash w' = w_trash w /\ w_log w' = w_log w /\
    w_dirs w' ⊆ w_dirs w /\
    (forall d, d ∈ w_dirs w -> d ∉ w_dirs w' -> In d ds).
Proof.
  induction ds as [|d ds IH]; intros k w; simpl.
  - exists w. split; [reflexivity|]. split_and!; try done; try (intros x H1 H2; contradiction).
  - destruct (stop k).
    { exists w. split; [reflexivity|]. split_and!; try done; try (intros x H1 H2; contradiction). }
    unfold io_bind, rmdir_if_empty.
    destruct (bool_decide (d ∈ w_dirs w) && negb (has_entries d w)).
    + destruct (IH (S k) (set_dirs (w_dirs w ∖ {[d]}) w)) as (w' & Heq & H1 & H2 & H3 & H4 & H5).
      exists w'. rewrite Heq. simpl in *. split; [reflexivity|].
      split_and!; try done.
      * set_solver.
      * intros x Hx Hx'. destruct (decide (x = d)) as [->|Hne]; [by left|].
        right. apply H5; [set_solver | done].
    + destruct (IH (S k) w) as (w' & Heq & H1 & H2 & H3 & H4 & H5).
      exists w'. rewrite Heq. split; [reflexivity|]. split_and!; try done.
      intros x Hx Hx'. right. auto.
Qed.






Lemma drop_spaces_app_split sp l : exists sps, l = sps ++ drop_spaces sp l.
Proof.
  induction l as [|c l IH]; simpl; [by exists []|].
  destruct (sp c); [|by exists []].
  destruct IH as [sps Hs]. exists (c :: sps). simpl. by rewrite <- Hs.
Qed.

Lemma drop_spaces_head sp l :
  match drop_spaces sp l with c :: _ => sp c = false | [] => True end.
Proof.
  induction l as [|c l IH]; simpl; [done|].
  destruct (sp c) eqn:Hc; [exact IH | exact Hc].
Qed.

Lemma drop_spaces_fix sp l :
  match l with c :: _ => sp c = false | [] => True end -> drop_spaces sp l = l.
Proof. destruct l as [|c l]; simpl; [done|]. intros ->. reflexivity. Qed.

Lemma strip_list_idem sp l : strip_list sp (strip_list sp l) = strip_list sp l.
Proof.
  unfold strip_list.
  set (m := drop_spaces sp l).
  set (n := drop_spaces sp (rev m)).
  assert (Hm := drop_spaces_head sp l). fold m in Hm.
  assert (Hn := drop_spaces_head sp (rev m)). fold n in Hn.
  destruct (drop_spaces_app_split sp (rev m)) as [sps Hs]. fold n in Hs.
  assert (Hrm : m = rev n ++ rev sps).
  { rewrite <- rev_app_distr, <- Hs, rev_involutive. reflexivity. }
  assert (Hhead : match rev n with c :: _ => sp c = false | [] => True end).
  { destruct (rev n) as [|c t] eqn:Ht; [done|]. rewrite Hrm in Hm. exact Hm. }
  rewrite (drop_spaces_fix sp (rev n) Hhead), rev_involutive.
  rewrite (drop_spaces_fix sp n Hn). reflexivity.
Qed.

Lemma py_strip_idem s : py_strip (py_strip s) = py_strip s.
Proof.
  unfold py_strip. rewrite list_ascii_of_string_of_list_ascii, strip_list_idem. reflexivity.
Qed.

Lemma py_strip_space s : py_strip (String " " s) = py_strip s.
Proof. reflexivity. Qed.

Lemma string_app_nil_r (s : string) : (s ++ "")%string = s.
Proof. induction s as [|c s IH]; [reflexivity|]. change (String c (s ++ "") = String c s). by rewrite IH. Qed.

Lemma split_char_nonnil c s : split_char c s <> [].
Proof.
  induction s as [|d s IH]; cbn [split_char]; [done|].
  destruct (Ascii.eqb d c); [done|]. destruct (split_char c s); discriminate.
Qed.

Lemma split_char_app c s1 t :
  contains_char c s1 = false ->
  split_char c (s1 ++ t) =
    (s1 ++ hd "" (split_char c t))%string :: tl (split_char c t).
Proof.
  induction s1 as [|d s1 IH]; intros Hc.
  - change (split_char c t = hd "" (split_char c t) :: tl (split_char c t)).
    pose proof (split_char_nonnil c t). destruct (split_char c t); done.
  - simpl in Hc. apply orb_false_iff in Hc as [Hcd Hc].
    change (String d s1 ++ t)%string with (String d (s1 ++ t)). simpl.
    rewrite IH by exact Hc.
    assert (Hdc : Ascii.eqb d c = false) by (rewrite Ascii.eqb_sym; exact Hcd).
    rewrite Hdc. reflexivity.
Qed.

Lemma split_char_concat ps p :
  Forall (fun q => contains_char "," q = false) (p :: ps) ->
  split_char "," (String.concat ", " (p :: ps)) = p :: map (String " ") ps.
Proof.
  revert p; induction ps as [|q ps IH]; intros p Hall; inversion Hall as [|? ? Hp Hrest]; subst.
  - simpl. rewrite <- (string_app_nil_r p) at 1. rewrite split_char_app by exact Hp.
    simpl. rewrite string_app_nil_r. reflexivity.
  - change (String.concat ", " (p :: q :: ps))
      with (p ++ String "," (String " " (String.concat ", " (q :: ps))))%string.
    rewrite split_char_app by exact Hp. cbn [split_char].
    rewrite IH by exact Hrest. simpl. rewrite string_app_nil_r. reflexivity.
Qed.

Lemma strip_list_sub sp (c : ascii) l : In c (strip_list sp l) -> In c l.
Proof.
  unfold strip_list. intros H. apply (proj2 (in_rev _ _)) in H.
  destruct (drop_spaces_app_split sp (rev (drop_spaces sp l))) as [s1 H1].
  assert (H2 : In c (rev (drop_spaces sp l))) by (rewrite H1; apply in_or_app; by right).
  apply (proj2 (in_rev _ _)) in H2.
  destruct (drop_spaces_app_split sp l) as [s2 H3].
  rewrite H3. apply in_or_app. by right.
Qed.

Lemma py_strip_no_char c s : contains_char c s = false -> contains_char c (py_strip s) = false.
Proof.
  rewrite !contains_char_In. unfold py_strip.
  rewrite list_ascii_of_string_of_list_ascii. intros H Hin. by apply H, (strip_list_sub is_space).
Qed.

Lemma split_char_no_sep c s : Forall (fun q => contains_char c q = false) (split_char c s).
Proof.
  induction s as [|d s IH]; cbn [split_char]; [by repeat constructor|].
  destruct (Ascii.eqb d c) eqn:Hdc; [by constructor|].
  destruct (split_char c s) as [|r rs]; [constructor; [simpl; rewrite Ascii.eqb_sym, Hdc; reflexivity | constructor]|].
  inversion IH as [|? ? Hr Hrs]; subst. constructor; [|exact Hrs].
  simpl. rewrite Ascii.eqb_sym, Hdc. exact Hr.
Qed.

Lemma parse_patterns_clean text :
  Forall (fun p => p <> "" /\ py_strip p = p /\ contains_char "," p = false) (parse_patterns text).
Proof.
  unfold parse_patterns. pose proof (split_char_no_sep "," text) as H.
  induction (split_char "," text) as [|s ss IH]; simpl; [constructor|].
  inversion H as [|? ? Hs Hss]; subst.
  destruct (String.eqb (py_strip s) "") eqn:He; simpl; [by apply IH|].
  constructor; [|by apply IH]. split_and!.
  - intros Hn. rewrite Hn in He. discriminate.
  - apply py_strip_idem.
  - by apply py_strip_no_char.
Qed.

Lemma parse_patterns_concat ps :
  Forall (fun p => p <> "" /\ py_strip p = p /\ contains_char "," p = false) ps ->
  parse_patterns (String.concat ", " ps) = ps.
Proof.
  destruct ps as [|p ps]; [reflexivity|]. intros Hall.
  unfold parse_patterns. rewrite split_char_concat.
  2:{ eapply Forall_impl; [exact Hall|]. simpl. tauto. }
  inversion Hall as [|? ? [Hp1 [Hp2 _]] Hrest]; subst. simpl.
  rewrite Hp2. destruct (String.eqb_spec p "") as [|_]; [contradiction|].
  f_equal. clear Hall. induction ps as [|q ps IH]; [reflexivity|].
  inversion Hrest as [|? ? [Hq1 [Hq2 _]] Hqs]; subst. simpl.
  rewrite py_strip_space, Hq2. destruct (String.eqb_spec q "") as [|_]; [contradiction|].
  f_equal. exact (IH Hqs).
Qed.

(** [update_rule_from_form] with a blank name only adds the error dialog.
    Otherwise, when the age field cannot be read or the selected row is
    out of range, nothing changes; else the rule built from the editor is
    written in place of the selected rule (the others and the length stay)
    or, with no selection, appended, and the toast and the log confirm it.
    The rule written has a non-blank, stripped name, a stripped path, the
    age read, and patterns that are non-empty, stripped and free of
    commas. *)
Theorem update_rule_from_form_outcome st :
  let st' := update_rule_from_form st in
  (py_strip (var_name (a_form st)) = "" ->
   a_rules st' = a_rules st /\ a_errors st' = a_errors st ++ ["Rule name required"] /\
   a_toast st' = a_toast st /\ a_log st' = a_log st) /\
  (py_strip (var_name (a_form st)) <> "" -> var_age (a_form st) = None -> st' = st) /\
  (forall age, py_strip (var_name (a_form st)) <> "" -> var_age (a_form st) = Some age ->
   (forall idx, a_sel st = Some idx -> (List.length (a_rules st) <= idx)%nat -> st' = st) /\
   exists rule,
     name rule = py_strip (var_name (a_form st)) /\ py_strip (name rule) = name rule /\
     py_strip (rule_path rule) = rule_path rule /\ min_age_days rule = age /\
     Forall (fun p => p <> "" /\ py_strip p = p /\ contains_char "," p = false) (patterns rule) /\
     (a_sel st = None ->
      a_rules st' = a_rules st ++ [rule] /\ a_errors st' = a_errors st /\
      a_toast st' = "Rule saved" /\ a_log st' = a_log st ++ ["Rule saved: " ++ name rule]%string) /\
     (forall idx, a_sel st = Some idx -> (idx < List.length (a_rules st))%nat ->
      List.length (a_rules st') = List.length (a_rules st) /\
      a_rules st' !! idx = Some rule /\
      (forall j, j <> idx -> a_rules st' !! j = a_rules st !! j) /\
      a_errors st' = a_errors st /\ a_toast st' = "Rule saved" /\
      a_log st' = a_log st ++ ["Rule saved: " ++ name rule]%string)).
Proof.
  cbv zeta. unfold update_rule_from_form.
  destruct (String.eqb_spec (py_strip (var_name (a_form st))) "") as [Hb|Hb].
  { split; [intros _; simpl; split_and!; reflexivity|].
    split; intros; contradiction. }
  split; [intros; contradiction|].
  split; [intros _ ->; reflexivity|].
  intros age _ Hage. rewrite Hage.
  split.
  { intros idx Hsel Hge. rewrite Hsel.
    destruct (Nat.ltb_spec idx (List.length (a_rules st))); [lia | reflexivity]. }
  exists {| name := py_strip (var_name (a_form st)); rule_path := py_strip (var_path (a_form st));
            patterns := parse_patterns (var_patterns (a_form st));
            min_age_days := age; action := var_action (a_form st);
            enabled := var_enabled (a_form st); remove_empty_dirs := var_rm_empty (a_form st) |}.
  split_and!.
  - reflexivity.
  - apply py_strip_idem.
  - apply py_strip_idem.
  - reflexivity.
  - apply parse_patterns_clean.
  - intros Hsel. rewrite Hsel. simpl. split_and!; reflexivity.
  - intros idx Hsel Hlt. rewrite Hsel.
    destruct (Nat.ltb_spec idx (List.length (a_rules st))) as [_|]; [|lia]. simpl.
    split_and!; [apply length_insert | by apply list_lookup_insert_eq
                | intros j Hj; by apply list_lookup_insert_ne | reflexivity | reflexivity
                | reflexivity].
Qed.

Lemma update_rule_from_form_outcome_witness :
  (a_rules (update_rule_from_form app_blank) = [ruleR Delete] /\
   a_errors (update_rule_from_form app_blank) = ["Rule name required"]) /\
  exists rule, name rule = "Tmp" /\ min_age_days rule = 3 /\
    a_rules (update_rule_from_form app_edit0) !! 0%nat = Some rule /\
    a_rules (update_rule_from_form app_edit0) !! 1%nat = Some (ruleR Quarantine).
Proof.
  split.
  - destruct (update_rule_from_form_outcome app_blank) as [H _].
    destruct H as (H1 & H2 & _); [vm_compute; reflexivity|]. split; assumption.
  - destruct (update_rule_from_form_outcome app_edit0) as (_ & _ & H).
    destruct (H 3 ltac:(vm_compute; discriminate) eq_refl)
      as (_ & rule & Hn & _ & _ & Ha & _ & _ & Hidx).
    destruct (Hidx 0%nat eq_refl ltac:(simpl; lia)) as (_ & H0 & Hj & _).
    exists rule. split_and!.
    + rewrite Hn. vm_compute. reflexivity.
    + exact Ha.
    + exact H0.
    + rewrite (Hj 1%nat ltac:(lia)). reflexivity.
Defined.

(** Selecting a rule in the table and saving the editor unchanged writes
    the same rule back, when the rule is one the editor can express: its
    name and path are stripped and the name is not blank, and its
    patterns are non-empty, stripped and free of commas. *)
Theorem select_then_save_keeps_rules st idx r :
  a_sel st = Some idx -> a_rules st !! idx = Some r ->
  name r <> "" -> py_strip (name r) = name r -> py_strip (rule_path r) = rule_path r ->
  Forall (fun p => p <> "" /\ py_strip p = p /\ contains_char "," p = false) (patterns r) ->
  a_rules (update_rule_from_form (on_rule_select st)) = a_rules st.
Proof.
  intros Hsel Hr Hn Hsn Hsp Hps.
  unfold on_rule_select. rewrite Hsel, Hr.
  unfold update_rule_from_form. simpl. rewrite Hsn.
  destruct (String.eqb_spec (name r) "") as [|_]; [contradiction|].
  rewrite Hsel. simpl.
  assert (Hlt : (idx < List.length (a_rules st))%nat) by (apply lookup_lt_is_Some; by eexists).
  apply Nat.ltb_lt in Hlt. rewrite Hlt. simpl.
  rewrite Hsp, parse_patterns_concat by exact Hps.
  destruct r as [n p ps age rm a en]. simpl.
  by apply list_insert_id.
Qed.


Lemma select_then_save_keeps_rules_witness :
  a_rules (update_rule_from_form (on_rule_select app_sel0)) = [ruleR Delete; ruleR Quarantine].
Proof.
  apply (select_then_save_keeps_rules app_sel0 1 (ruleR Quarantine)).
  - reflexivity.
  - reflexivity.
  - discriminate.
  - vm_compute. reflexivity.
  - vm_compute. reflexivity.
  - constructor; [split_and!; [discriminate | vm_compute; reflexivity | reflexivity] | constructor].
Defined.

Lemma name_absent_forallb (rs : list PathRule) (r : PathRule) :
  forallb (fun e => negb (String.eqb (name e) (name r))) rs = true <-> ~ In (name r) (map name rs).
Proof.
  rewrite forallb_forall. split.
  - intros H Hin. apply in_map_iff in Hin as (e & He & Hin).
    specialize (H e Hin). rewrite He, String.eqb_refl in H. discriminate.
  - intros H e Hin. destruct (String.eqb_spec (name e) (name r)) as [He|]; [|done].
    exfalso. apply H. rewrite <- He. by apply in_map.
Qed.

Lemma add_preset_go news : forall rs a,
  exists extra,
    fold_left (fun acc r =>
               let '(rs, added) := acc in
               if forallb (fun e => negb (String.eqb (name e) (name r))) rs
               then (rs ++ [r], added + 1) else (rs, added)) news (rs, a) =
      (rs ++ extra, a + Z.of_nat (List.length extra)) /\
    Forall (fun r => In r news) extra /\
    (NoDup (map name rs) -> NoDup (map name (rs ++ extra))) /\
    (forall r, In r news -> In (name r) (map name (rs ++ extra))).
Proof.
  induction news as [|r news IH]; intros rs a; simpl.
  - exists []. rewrite app_nil_r, Z.add_0_r. split_and!; [done | constructor | done | intros r []].
  - destruct (forallb _ rs) eqn:Hf.
    + destruct (IH (rs ++ [r]) (a + 1)) as (extra & Heq & Hin & Hnd & Hall).
      exists (r :: extra). rewrite Heq, <- app_assoc. simpl. split_and!.
      * f_equal. lia.
      * constructor; [by left|]. eapply Forall_impl; [exact Hin|]. intros x Hx. by right.
      * intros Hnd0.
        assert (H : NoDup (map name ((rs ++ [r]) ++ extra))).
        { apply Hnd. rewrite map_app. apply NoDup_app.
          split_and!; [done | | apply NoDup_singleton].
          intros x Hx Hx'. apply list_elem_of_singleton in Hx'. subst x.
          apply name_absent_forallb in Hf. apply Hf. by apply list_elem_of_In. }
        rewrite <- app_assoc in H. exact H.
      * intros r' [<-|Hr']; [|rewrite <- app_assoc in Hall; by apply Hall].
        rewrite map_app. apply in_or_app. right. simpl. by left.
    + destruct (IH rs a) as (extra & Heq & Hin & Hnd & Hall).
      exists extra. rewrite Heq. split_and!; auto.
      * eapply Forall_impl; [exact Hin|]. intros x Hx. by right.
      * intros r' [<-|Hr']; [|by apply Hall].
        rewrite map_app. apply in_or_app. left.
        destruct (In_dec string_dec (name r) (map name rs)) as [|Hn]; [done|].
        apply name_absent_forallb in Hn. congruence.
Qed.

Lemma add_preset_none news : forall rs a,
  (forall r, In r news -> In (name r) (map name rs)) ->
  fold_left (fun acc r =>
               let '(rs, added) := acc in
               if forallb (fun e => negb (String.eqb (name e) (name r))) rs
               then (rs ++ [r], added + 1) else (rs, added)) news (rs, a) = (rs, a).
Proof.
  induction news as [|r news IH]; intros rs a Hall; simpl; [done|].
  destruct (forallb _ rs) eqn:Hf.
  - apply name_absent_forallb in Hf. exfalso. apply Hf, Hall. by left.
  - apply IH. intros r' Hr'. apply Hall. by right.
Qed.

Lemma add_preset_acc news : forall rs a,
  add_preset_rules news rs = (fst (add_preset_rules news rs), snd (add_preset_rules news rs)) /\
  fold_left (fun acc r =>
               let '(rs, added) := acc in
               if forallb (fun e => negb (String.eqb (name e) (name r))) rs
               then (rs ++ [r], added + 1) else (rs, added)) news (rs, a) =
    (fst (add_preset_rules news rs), a + snd (add_preset_rules news rs)).
Proof.
  unfold add_preset_rules.
  induction news as [|r news IH]; intros rs a; simpl.
  - split; [reflexivity|]. by rewrite Z.add_0_r.
  - split; [by destruct (fold_left _ _ _)|].
    destruct (forallb _ rs).
    + rewrite (proj2 (IH (rs ++ [r]) (a + 1))), (proj2 (IH (rs ++ [r]) (0 + 1))).
      simpl. f_equal. lia.
    + rewrite (proj2 (IH rs a)), (proj2 (IH rs 0)). reflexivity.
Qed.

(** [add_browser_rules] and [add_os_rules] go through the preset rules in
    order: a preset rule is appended, and counted in [added], exactly when
    its name is not taken by the rules at its turn (the rules there were
    and the presets appended before it). So the rules there are are kept
    and followed, in order, by the appended presets; rule names that were
    distinct stay distinct, every preset name is taken afterwards, and a
    second click adds nothing. *)
Theorem add_preset_rules_spec news rules :
  add_preset_rules [] rules = (rules, 0) /\
  (forall r news', news = r :: news' ->
   add_preset_rules news rules =
     if bool_decide (name r ∈ map name rules) then add_preset_rules news' rules
     else let '(rs', a) := add_preset_rules news' (rules ++ [r]) in (rs', a + 1)) /\
  exists extra,
    add_preset_rules news rules = (rules ++ extra, Z.of_nat (List.length extra)) /\
    Forall (fun r => In r news) extra /\
    (NoDup (map name rules) -> NoDup (map name (rules ++ extra))) /\
    (forall r, In r news -> In (name r) (map name (rules ++ extra))) /\
    add_preset_rules news (rules ++ extra) = (rules ++ extra, 0).
Proof.
  split; [reflexivity|]. split.
  - intros r news' ->. unfold add_preset_rules at 1. simpl.
    destruct (forallb _ rules) eqn:Hf.
    + rewrite bool_decide_eq_false_2.
      2:{ rewrite list_elem_of_In. by apply name_absent_forallb. }
      rewrite (proj2 (add_preset_acc news' (rules ++ [r]) (0 + 1))).
      destruct (add_preset_acc news' (rules ++ [r]) 0) as [Hp _]. rewrite Hp. simpl.
      f_equal. lia.
    + rewrite bool_decide_eq_true_2.
      2:{ rewrite list_elem_of_In.
          destruct (In_dec string_dec (name r) (map name rules)) as [|Hn]; [done|].
          apply name_absent_forallb in Hn. congruence. }
      rewrite (proj2 (add_preset_acc news' rules 0)). simpl.
      destruct (add_preset_acc news' rules 0) as [Hp _]. by rewrite Hp.
  - unfold add_preset_rules.
    destruct (add_preset_go news rules 0) as (extra & Heq & Hin & Hnd & Hall).
    exists extra. rewrite Heq. split_and!; auto.
    by apply add_preset_none.
Qed.

Lemma add_preset_rules_spec_witness :
  add_preset_rules [ruleR Delete; ruleR Quarantine] [ruleR Recycle] =
    add_preset_rules [ruleR Quarantine] [ruleR Recycle] /\
  exists extra,
    add_preset_rules [ruleR Delete; ruleR Quarantine] [] = ([] ++ extra, Z.of_nat (List.length extra)) /\
    NoDup (map name ([] ++ extra)).
Proof.
  split.
  - destruct (add_preset_rules_spec [ruleR Delete; ruleR Quarantine] [ruleR Recycle])
      as (_ & Hc & _).
    rewrite (Hc (ruleR Delete) [ruleR Quarantine] eq_refl).
    rewrite bool_decide_eq_true_2; [reflexivity|]. simpl. left.
  - destruct (add_preset_rules_spec [ruleR Delete; ruleR Quarantine] [])
      as (_ & _ & extra & Heq & _ & Hnd & _ & _).
    exists extra. split; [exact Heq | apply Hnd; constructor].
Defined.

(** [age_off_logs] only ever deletes log files: an entry is gone
    afterwards exactly when its name matches [*.log*], it is not a
    directory, and its modification time is before the cutoff of
    [max(1, log_age_off_days)] days; nothing is added or changed. Whatever
    the configured age, a log modified within the last day is kept. *)
Theorem age_off_logs_spec cfg now logs :
  age_off_logs cfg now logs ⊆ logs /\
  (forall nm e, logs !! nm = Some e ->
   age_off_logs cfg now logs !! nm = None <->
   log_glob nm = true /\ le_is_dir e = false /\
   exists m, le_mtime e = Some m /\ m < now - Z.max 1 (log_age_off_days cfg) * 86400) /\
  (forall nm e m, logs !! nm = Some e -> le_mtime e = Some m -> now - 86400 <= m ->
   age_off_logs cfg now logs !! nm = Some e).
Proof.
  unfold age_off_logs. split_and!.
  - apply map_filter_subseteq.
  - intros nm e He. rewrite map_lookup_filter_None. split.
    + intros [Hn|Hf]; [congruence|]. specialize (Hf e He). simpl in Hf.
      unfold aged_off in Hf. destruct (log_glob nm); [|done].
      destruct (le_mtime e) as [m|]; [|done].
      destruct (Z.ltb_spec m (now - Z.max 1 (log_age_off_days cfg) * 86400)),
               (le_is_dir e); try done.
      split_and!; [done | done | by exists m].
    + intros (Hg & Hd & m & Hm & Hlt). right. intros e' He'. rewrite He in He'.
      injection He' as <-. simpl. unfold aged_off. rewrite Hg, Hm, Hd.
      apply Z.ltb_lt in Hlt. rewrite Hlt. simpl. tauto.
  - intros nm e m He Hm Hrec. apply map_lookup_filter_Some. split; [done|].
    simpl. unfold aged_off. rewrite Hm.
    destruct (Z.ltb_spec m (now - Z.max 1 (log_age_off_days cfg) * 86400)); [lia|].
    by rewrite andb_false_r.
Qed.


Lemma age_off_logs_spec_witness :
  age_off_logs (cfgq false false) 5000000 logs0 !! "app.log" = None /\
  age_off_logs (cfgq false false) 5000000 logs0 !! "app.log.1" =
    Some {| le_mtime := Some 4990000; le_is_dir := false |}.
Proof.
  destruct (age_off_logs_spec (cfgq false false) 5000000 logs0) as (_ & Hiff & Hrec).
  split.
  - apply (Hiff "app.log" {| le_mtime := Some 0; le_is_dir := false |}); [reflexivity|].
    split_and!; [reflexivity | reflexivity | exists 0; split; [reflexivity | vm_compute; reflexivity]].
  - apply (Hrec "app.log.1" _ 4990000); [reflexivity | reflexivity | vm_compute; discriminate].
Defined.

Section ScanInvariant.
Variable fs : FsView.
Variable cfg : AppConfig.
Variable stop : nat -> bool.
Variable rule : PathRule.
Variable cutoff : Z.
Variable allowed : path -> Prop.


Lemma scan_entry_inv p acc acc' b :
  allowed p -> scan_inv fs cfg allowed acc -> scan_entry fs cfg rule cutoff p acc = Some (acc', b) ->
  scan_inv fs cfg allowed acc'.
Proof.
  intros Hp (Hnd & Hseen & Hsz & Hall). unfold scan_entry.
  case_bool_decide as Hs; [intros [= <- _]; split_and!; done|].
  destruct (fs_is_dir fs p) as [[]| |] eqn:Hd; try (intros [= <- _]; split_and!; done); try discriminate.
  destruct (if follow_symlinks cfg then _ else _) as [[]| |] eqn:Hl;
    try (intros [= <- _]; split_and!; done); try discriminate.
  destruct (if 0 <? min_age_days rule then _ else _) as [[]| |];
    try (intros [= <- _]; split_and!; done); try discriminate.
  intros [= <- _]. simpl. split_and!.
  - apply NoDup_app. split_and!; [done | | apply NoDup_singleton].
    intros x Hx Hx'. apply list_elem_of_singleton in Hx'. subst x.
    apply Hs, Hseen. by apply list_elem_of_In.
  - intros q Hq. apply in_app_or in Hq as [Hq | [<- | []]]; set_solver.
  - cbn [acc_size acc_files]. rewrite Hsz, map_app, fold_right_app. cbn [map fold_right].
    change (match fs_stat fs p with POk (_, s) => s | _ => 0 end) with (fs_size fs p).
    generalize (fs_size fs p) as z. intros z.
    rewrite Z.add_0_r. clear Hsz. induction (map (fs_size fs) (acc_files acc)) as [|x l IH]; cbn [foldr]; lia.
  - apply Forall_app. split; [done|]. constructor; [|constructor].
    split_and!; [done | | done].
    destruct (follow_symlinks cfg); [by left | by right].
Qed.

Lemma scan_entries_inv ps acc :
  (forall p, In p ps -> allowed p) -> scan_inv fs cfg allowed acc ->
  match scan_entries fs cfg stop rule cutoff ps acc with inl a | inr a => scan_inv fs cfg allowed a end.
Proof.
  revert acc; induction ps as [|p ps IH]; intros acc Hps Hinv; simpl; [exact Hinv|].
  destruct (stop (acc_checks acc)); [exact Hinv|].
  destruct (scan_entry fs cfg rule cutoff p _) as [[acc2 b]|] eqn:He; [|exact Hinv].
  assert (H2 : scan_inv fs cfg allowed acc2).
  { refine (scan_entry_inv p _ acc2 b _ _ He); [by apply Hps; left | exact Hinv]. }
  destruct b; [exact H2|]. apply IH; [intros q Hq; apply Hps; by right | exact H2].
Qed.

Lemma scan_patterns_inv base pats acc :
  (forall pat p, In pat pats -> In p (fs_rglob fs base pat) -> allowed p) -> scan_inv fs cfg allowed acc ->
  scan_inv fs cfg allowed (scan_patterns fs cfg stop rule cutoff base pats acc).
Proof.
  revert acc; induction pats as [|pat pats IH]; intros acc Hal Hinv; simpl; [exact Hinv|].
  pose proof (scan_entries_inv (fs_rglob fs base pat) acc) as H.
  destruct (scan_entries _ _ _ _ _ _ _) as [a|a].
  - apply IH; [intros pt p Hpt Hp; apply (Hal pt p); [by right | done]|].
    apply H; [intros p Hp; apply (Hal pat p); [by left | done] | exact Hinv].
  - apply H; [intros p Hp; apply (Hal pat p); [by left | done] | exact Hinv].
Qed.
End ScanInvariant.

Section ScanLength.
Variable fs : FsView.
Variable cfg : AppConfig.
Variable stop : nat -> bool.
Variable rule : PathRule.
Variable cutoff : Z.

Lemma scan_entry_len p acc acc' b :
  scan_entry fs cfg rule cutoff p acc = Some (acc', b) ->
  (acc_files acc' = acc_files acc /\ b = false) \/
  (List.length (acc_files acc') = S (List.length (acc_files acc)) /\
   b = (Z.of_nat (S (List.length (acc_files acc))) >=? max_delete_per_rule cfg)).
Proof.
  unfold scan_entry.
  case_bool_decide; [intros [= <- <-]; by left|].
  destruct (fs_is_dir fs p) as [[]| |]; try (intros [= <- <-]; by left); try discriminate.
  destruct (if follow_symlinks cfg then _ else _) as [[]| |];
    try (intros [= <- <-]; by left); try discriminate.
  destruct (if 0 <? min_age_days rule then _ else _) as [[]| |];
    try (intros [= <- <-]; by left); try discriminate.
  intros [= <- <-]. right. simpl. rewrite length_app. simpl.
  split; [lia|]. do 2 f_equal. lia.
Qed.

Lemma scan_entries_len ps acc :
  match scan_entries fs cfg stop rule cutoff ps acc with
  | inl a | inr a =>
    (List.length (acc_files acc) <= List.length (acc_files a))%nat /\
    Z.of_nat (List.length (acc_files a)) <=
      Z.max (Z.of_nat (List.length (acc_files acc)) + 1) (max_delete_per_rule cfg)
  end.
Proof.
  revert acc; induction ps as [|p ps IH]; intros acc; simpl; [lia|].
  destruct (stop (acc_checks acc)); [lia|].
  destruct (scan_entry fs cfg rule cutoff p _) as [[acc2 b]|] eqn:He; [|simpl; lia].
  destruct (scan_entry_len _ _ _ _ He) as [[Hf ->] | [Hl Hb]]; simpl in *.
  - specialize (IH acc2). rewrite Hf in IH. exact IH.
  - destruct b.
    + rewrite Hl. lia.
    + specialize (IH acc2). rewrite Hl in IH.
      symmetry in Hb. rewrite Z.geb_leb in Hb. apply Z.leb_gt in Hb.
      destruct (scan_entries _ _ _ _ _ _ _); lia.
Qed.

Lemma scan_patterns_len base pats acc :
  Z.of_nat (List.length (acc_files (scan_patterns fs cfg stop rule cutoff base pats acc))) <=
  Z.max (Z.of_nat (List.length (acc_files acc)) + Z.of_nat (List.length pats))
        (Z.max 1 (max_delete_per_rule cfg) + Z.of_nat (List.length pats) - 1).
Proof.
  revert acc; induction pats as [|pat pats IH]; intros acc; simpl; [lia|].
  pose proof (scan_entries_len (fs_rglob fs base pat) acc) as H.
  destruct (scan_entries _ _ _ _ _ _ _) as [a|a].
  - specialize (IH a). lia.
  - lia.
Qed.
End ScanLength.

(** Every file [enumerate_rule] returns is listed once, is a regular file
    (not a directory, and not a symlink unless [follow_symlinks]) and
    comes from [base.rglob] of one of the rule's patterns; [total_size] is
    the sum of the sizes [stat] reports for them (0 where it raises). *)
Theorem enumerate_files_wellformed fs cfg stop now rule :
  let res := enumerate_rule fs cfg stop now rule in
  NoDup (files res) /\
  total_size res = fold_right Z.add 0 (map (fs_size fs) (files res)) /\
  Forall (fun p => fs_is_dir fs p = POk false /\
                   (follow_symlinks cfg = true \/ fs_is_symlink fs p = POk false) /\
                   exists pat, In pat (patterns rule) /\
                               In p (fs_rglob fs (fs_resolve fs (rule_path rule)) pat))
         (files res).
Proof.
  unfold enumerate_rule.
  destruct (negb (enabled rule)); [simpl; split_and!; [constructor | done | constructor]|].
  destruct (negb (fs_exists fs _)); [simpl; split_and!; [constructor | done | constructor]|].
  set (allowed := fun p => exists pat, In pat (patterns rule) /\
                  In p (fs_rglob fs (fs_resolve fs (rule_path rule)) pat)).
  assert (H0 : scan_inv fs cfg allowed acc0).
  { split_and!; [constructor | intros p [] | reflexivity | constructor]. }
  destruct (scan_patterns_inv fs cfg stop rule (now - min_age_days rule * 86400) allowed
              (fs_resolve fs (rule_path rule)) (patterns rule) acc0)
    as (Hnd & _ & Hsz & Hall); [|exact H0|].
  { intros pat p Hpat Hp. by exists pat. }
  simpl. split_and!; [exact Hnd | exact Hsz | exact Hall].
Qed.

(** At most [max(1, max_delete_per_rule) + len(patterns) - 1] files: the
    cap ends the loop of the current pattern only, so each further
    pattern may add one file more. *)
Theorem enumerate_files_bound fs cfg stop now rule :
  Z.of_nat (List.length (files (enumerate_rule fs cfg stop now rule))) <=
  Z.max 1 (max_delete_per_rule cfg) + Z.of_nat (List.length (patterns rule)) - 1.
Proof.
  unfold enumerate_rule.
  destruct (negb (enabled rule)); [simpl; lia|].
  destruct (negb (fs_exists fs _)); [simpl; lia|].
  simpl. pose proof (scan_patterns_len fs cfg stop rule (now - min_age_days rule * 86400)
                       (fs_resolve fs (rule_path rule)) (patterns rule) acc0) as H.
  simpl in H. lia.
Qed.

Lemma cleanup_step_ok cfg stop base w :
  exists w', io_try (cleanup_empty_dirs cfg stop base) (fun _ => io_ret tt) w = (inl tt, w').
Proof.
  unfold io_try, cleanup_empty_dirs. destruct (dry_run cfg); [by exists w|].
  destruct (cleanup_loop_frame stop (walk_bottom_up base w) 0 w) as (w' & Heq & _).
  rewrite Heq. by exists w'.
Qed.

Lemma clean_loop_ds cfg has_trash qdir resolve flag astop cstop :
  forall rs i dt ft w, exists ds ft' w',
    clean_loop cfg has_trash qdir resolve flag astop cstop i rs dt ft w =
      (inl (dt + fold_right Z.add 0 ds, ft'), w') /\
    (List.length ds <= List.length rs)%nat /\
    Forall2 (fun d res => 0 <= d <= res_cap cfg res) ds (firstn (List.length ds) rs) /\
    ft <= ft' /\
    ((forall j, flag j = false) -> List.length ds = List.length rs) /\
    (dry_run cfg = true -> (forall j, flag j = false) -> (forall j k, astop j k = false) ->
     ds = map (res_cap cfg) rs).
Proof.
  induction rs as [|res rs IH]; intros i dt ft w; simpl.
  - exists [], ft, w. rewrite Z.add_0_r. split_and!; try reflexivity; try lia; constructor.
  - destruct (flag i) eqn:Hfl.
    { exists [], ft, w. rewrite Z.add_0_r. simpl. split_and!; try reflexivity; try lia.
      - constructor.
      - intros H. rewrite H in Hfl. discriminate.
      - intros _ H. rewrite H in Hfl. discriminate. }
    unfold io_bind at 1, act_on_files.
    destruct (act_loop_bounds cfg has_trash qdir resolve (astop i) (sr_rule res) (files res) 0 0 0 w)
      as (d & b & w1 & Heq & Hd & Hb & Hm).
    rewrite Heq.
    assert (Hc : exists w2,
      (if remove_empty_dirs (sr_rule res)
       then io_try (cleanup_empty_dirs cfg (cstop i) (resolve (rule_path (sr_rule res))))
                   (fun _ => io_ret tt)
       else io_ret tt) w1 = (inl tt, w2)).
    { destruct (remove_empty_dirs (sr_rule res)); [apply cleanup_step_ok | by exists w1]. }
    destruct Hc as [w2 Hc].
    unfold io_bind at 1. rewrite Hc. unfold io_bind, io_log.
    match goal with |- context [clean_loop _ _ _ _ _ _ _ _ _ _ _ ?w0] =>
      destruct (IH (S i) (dt + d) (ft + b) w0) as (ds & ft' & w' & Heq' & Hlen & HF & Hft & Hall & Hdry) end.
    exists (d :: ds), ft', w'. simpl. split_and!.
    + rewrite Heq', Z.add_assoc. reflexivity.
    + lia.
    + constructor; [|exact HF]. unfold res_cap. specialize (Hm ltac:(lia)). lia.
    + lia.
    + intros H. f_equal. by apply Hall.
    + intros Hd1 Hf Ha. f_equal; [|by apply Hdry].
      destruct (act_loop_dry cfg has_trash qdir resolve (astop i) (sr_rule res) Hd1
                  (files res) 0 0 0 w) as (n & Heq2 & Hle & _ & Hend).
      rewrite Heq in Heq2. injection Heq2 as Hdn _ _. subst d.
      rewrite Ha in Hend. unfold res_cap. specialize (Hm ltac:(lia)).
      destruct Hend as [Hn | [Hn | Hn]]; [subst n; lia | discriminate | lia].
Qed.

(** [_clean_worker] runs [act_on_files] on the scan results in order,
    until the stop flag is seen. The number of files deleted for each
    result handled is between 0 and
    [min(len(res.files), max(0, max_total_delete))], and the deleted total
    is their sum: [max_total_delete] caps each rule's deletions, not the
    sum, which in a dry run over results that all reach the cap is the cap
    times their number. The freed total is not negative. Without a stop
    flag every result is handled. Unless the window has gone, when
    [lbl_status.config] raises, the call returns the totals and the last
    log line reports the freed total. *)
Theorem clean_worker_totals cfg has_trash qdir resolve flag astop cstop ui results w :
  exists ds ft w',
    clean_worker cfg has_trash qdir resolve flag astop cstop ui results w =
      ((if ui then inl (fold_right Z.add 0 ds, ft) else inr "TclError"), w') /\
    (List.length ds <= List.length results)%nat /\
    Forall2 (fun d res => 0 <= d <= res_cap cfg res) ds (firstn (List.length ds) results) /\
    0 <= ft /\
    ((forall j, flag j = false) -> List.length ds = List.length results) /\
    (dry_run cfg = true -> (forall j, flag j = false) -> (forall j k, astop j k = false) ->
     ds = map (res_cap cfg) results) /\
    (ui = true ->
     exists l, w_log w' = l ++ ["DONE. Freed approx " ++ human_bytes ft ++ " (dry_run=" ++
                                (if dry_run cfg then "True" else "False") ++ ")"]%string).
Proof.
  unfold clean_worker, io_bind.
  destruct (clean_loop_ds cfg has_trash qdir resolve flag astop cstop results 0 0 0 w)
    as (ds & ft & w' & Heq & Hlen & HF & Hft & Hall & Hdry).
  rewrite Heq. rewrite Z.add_0_l. exists ds, ft.
  destruct ui; simpl.
  - eexists. split; [reflexivity|]. split_and!; auto. intros _. by eexists.
  - eexists. split; [reflexivity|]. split_and!; auto. discriminate.
Qed.

Lemma clean_worker_totals_witness :
  max_total_delete cfg_dry1 = 1 /\
  (exists ft w', clean_worker cfg_dry1 true qdir0 resolve0 no_stop (fun _ _ => false)
                   (fun _ _ => false) true [sr Delete; sr Quarantine] w0 = (inl (2, ft), w')) /\
  (exists w', clean_worker cfg_dry1 true qdir0 resolve0 no_stop (fun _ _ => false)
                (fun _ _ => false) false [sr Delete; sr Quarantine] w0 = (inr "TclError", w')).
Proof.
  split; [reflexivity|]. split.
  - destruct (clean_worker_totals cfg_dry1 true qdir0 resolve0 no_stop (fun _ _ => false)
                (fun _ _ => false) true [sr Delete; sr Quarantine] w0)
      as (ds & ft & w' & Heq & _ & _ & _ & _ & Hdry & _).
    rewrite (Hdry eq_refl (fun _ => eq_refl) (fun _ _ => eq_refl)) in Heq.
    exists ft, w'. rewrite Heq. vm_compute. reflexivity.
  - destruct (clean_worker_totals cfg_dry1 true qdir0 resolve0 no_stop (fun _ _ => false)
                (fun _ _ => false) false [sr Delete; sr Quarantine] w0)
      as (ds & ft & w' & Heq & _).
    exists w'. exact Heq.
Defined.
